(** * Octant-decomposed N-body engine (ps4/fserial.c): model and properties

    The C program runs eight lock-step MPI processes, one per octant of
    space.  This development embeds the pure helpers of [fserial.c] and the
    body of its time-step loop as Rocq functions and proves the properties
    the design document states about them.

    Modelling conventions.
    - [double] is IEEE-754 binary64 with round-to-nearest-even on every
      operation: Rocq's primitive [float].  [a > b] is written [b <? a].
    - [int] is [Z]; every counter of the program is bounded by the buffer
      capacity [MAX_N_BODY], so no wrap-around arises.  The one sum taken
      over caller-supplied counts, [sum_n_body] of [get_centroid], is kept
      within [int] by a hypothesis where a property depends on it.
    - A C array is an index map [Z -> A]; writing [a[i] = v] is [upd a i v].
      The first [n] cells of an array are read back with [slice a 0 n].
      The program never checks its populations against [MAX_N_BODY]; the
      model has no such bound either.
    - [for (i = 0; i < n; ++i) body] is [for_ n body], a left fold over
      [0, 1, ..., n-1] threading the variables the loop assigns.
    - libm's [pow] is a parameter of the model ([Section Engine]); the
      closed examples instantiate it with [pow_ref].
    - The eight processes are a map from rank to process state; a collective
      call is one function on that map. *)

From Stdlib Require Import ZArith List Lia Bool Permutation.
From Stdlib Require Import Floats.
From Stdlib Require Uint63.
Import ListNotations.

#[local] Set Warnings "-inexact-float".
#[local] Open Scope Z_scope.

(** ** Arrays and counted loops *)

Definition arr (A : Type) : Type := Z -> A.

Definition upd {A : Type} (a : arr A) (i : Z) (v : A) : arr A :=
  fun j => if j =? i then v else a j.

(** [ints n] is [0; 1; ...; n-1] (empty when [n <= 0]). *)
Definition ints (n : Z) : list Z := map Z.of_nat (seq 0 (Z.to_nat n)).

Definition for_ {S : Type} (n : Z) (body : Z -> S -> S) (s : S) : S :=
  fold_left (fun s i => body i s) (ints n) s.

(** [slice a off len] reads [a[off], ..., a[off+len-1]]. *)
Definition slice {A : Type} (a : arr A) (off len : Z) : list A :=
  map (fun k => a (off + k)) (ints len).

(** [memcpy(dst + doff, src + soff, len * sizeof *dst)]. *)
Definition copy {A : Type} (dst : arr A) (doff : Z) (src : arr A) (soff len : Z)
  : arr A :=
  fun j => if (doff <=? j) && (j <? doff + len) then src (soff + (j - doff))
           else dst j.

(** ** Constants of the program *)

Definition MAX_N_BODY : Z := 50000.
Definition TIME_INTERVAL : Z := 128.
Definition G : float := 1.0%float.
Definition N_DIM : Z := 3.
Definition NP : Z := 8.
Definition CUTOFF_SQR : float := 25.0%float.
Definition EPSILON : float := 1.0e-6%float.

Definition INT_MIN : Z := - 2 ^ 31.
Definition INT_MAX : Z := 2 ^ 31 - 1.

Definition ALL_ONES : arr Z :=
  fun i => nth (Z.to_nat i) [1; 1; 1; 1; 1; 1; 1; 1] 0.

Definition octant_dims : arr (arr Z) :=
  fun o k =>
    nth (Z.to_nat k)
      (nth (Z.to_nat o)
         [ [-1; -1; -1]; [1; -1; -1]; [-1; 1; -1]; [1; 1; -1];
           [-1; -1; 1];  [1; -1; 1];  [-1; 1; 1];  [1; 1; 1] ] [])
      0.

(** ** Conversions between [int] and [double] *)

(** [(double) n]: exact for every 32-bit [n]. *)
Definition double_of_int (n : Z) : float :=
  if n <? 0 then (- of_uint63 (Uint63.of_Z (- n)))%float
  else of_uint63 (Uint63.of_Z n).

(** [(int) d]: truncation toward zero.  C leaves the conversion undefined
    when the truncated value does not fit an [int] (and for NaN and the
    infinities); x86-64 then yields [INT_MIN], which is what is modelled. *)
Definition int_of_double (d : float) : Z :=
  match Prim2SF d with
  | S754_zero _ => 0
  | S754_finite s m e =>
      let a := if 0 <=? e then Z.pos m * 2 ^ e else Z.pos m / 2 ^ (- e) in
      let t := if s then - a else a in
      if (INT_MIN <=? t) && (t <=? INT_MAX) then t else INT_MIN
  | _ => INT_MIN
  end.

(** [abs] of <stdlib.h>: [int abs(int)]; the two's-complement result at
    [INT_MIN] is [INT_MIN] itself. *)
Definition abs (n : Z) : Z := if n =? INT_MIN then INT_MIN else Z.abs n.

(** [(b)] used as an [int]: 1 when the comparison holds, else 0. *)
Definition int_of_bool (b : bool) : Z := if b then 1 else 0.

(** ** Bodies *)

(** [double x[N_DIM]]: three components, read and written by index. *)
Record vec3 : Type := V3 { c0 : float; c1 : float; c2 : float }.

Definition vget (a : vec3) (k : Z) : float :=
  if k =? 0 then c0 a else if k =? 1 then c1 a else c2 a.

Definition vset (a : vec3) (k : Z) (d : float) : vec3 :=
  if k =? 0 then V3 d (c1 a) (c2 a)
  else if k =? 1 then V3 (c0 a) d (c2 a)
  else V3 (c0 a) (c1 a) d.

Definition zero3 : vec3 := V3 0%float 0%float 0%float.

Record Body : Type := mkBody { mass : float; x : vec3; v : vec3 }.

Definition zero_body : Body := mkBody 0%float zero3 zero3.

(** ** Domain partitioner *)

Definition get_octant_rank (dims : vec3) : Z :=
  int_of_bool (0 <? vget dims 2)%float * 4
  + int_of_bool (0 <? vget dims 1)%float * 2
  + int_of_bool (0 <? vget dims 0)%float.

(** A reference instance of libm's [pow] at the two exponents the program
    passes: [x * x] for 2 and [x * sqrt x] for 1.5.  It agrees with any
    [pow] of error below one unit in the last place wherever the result is
    exactly representable; the closed examples are evaluated with it. *)
Definition pow_ref (a b : float) : float :=
  if (b =? 2)%float then (a * a)%float
  else if (b =? 1.5)%float then (a * PrimFloat.sqrt a)%float
  else nan.

Section Engine.

(** libm's [double pow(double, double)]. *)
Variable pow : float -> float -> float.

(** ** Ghost-exchange candidate test *)

(** The inner loop of [shouldSend]: the value of [dist] for octant [o]. *)
Definition boundary_dist (pos : vec3) (o : Z) : float :=
  for_ N_DIM
    (fun k dist =>
       if (double_of_int (octant_dims o k) * vget pos k <? 0)%float
       then (dist + pow (vget pos k) 2)%float
       else dist)
    0%float.

Definition shouldSend (pos : vec3) (transmit : arr Z) : arr Z :=
  for_ NP
    (fun o transmit =>
       let dist := boundary_dist pos o in
       if (double_of_int (abs (int_of_double dist)) <? EPSILON)%float
          || (CUTOFF_SQR <? dist)%float
       then upd transmit o 0
       else upd transmit o 1)
    transmit.

(** ** Force kernel *)

(** The two arrays a [const Body *] of the time-step loop can point into. *)
Inductive region : Type := Bodies | Recvbuf.

Record ptr : Type := mkPtr { base : region; index : Z }.

Definition ptr_eqb (p q : ptr) : bool :=
  match base p, base q with
  | Bodies, Bodies | Recvbuf, Recvbuf => index p =? index q
  | _, _ => false
  end.

Record memory : Type := mkMem { m_bodies : arr Body; m_recvbuf : arr Body }.

Definition load (m : memory) (p : ptr) : Body :=
  match base p with
  | Bodies => m_bodies m (index p)
  | Recvbuf => m_recvbuf m (index p)
  end.

(** [r2] as [compute_force_as_vector] computes it. *)
Definition sq_separation (this that : Body) : float :=
  (pow (vget (x this) 0 - vget (x that) 0) 2
   + pow (vget (x this) 1 - vget (x that) 1) 2
   + pow (vget (x this) 2 - vget (x that) 2) 2)%float.

Definition compute_force_as_vector (m : memory) (this that : ptr) (vec : vec3)
  : vec3 :=
  if ptr_eqb this that then vec
  else
    let r2 := sq_separation (load m this) (load m that) in
    if (CUTOFF_SQR <? r2)%float then vec
    else
      let tmp := (G * mass (load m this) * mass (load m that) / pow r2 1.5)%float in
      for_ N_DIM
        (fun k vec =>
           vset vec k
             (vget vec k
              + tmp * (vget (x (load m that)) k - vget (x (load m this)) k))%float)
        vec.

(** ** Diagnostics: centroids *)

(** [get_centroid], returning with the centroid the list of divisors of the
    divisions it executed, in program order.  [sum_n_body] is a C [int]: the
    model keeps the mathematical sum of the counts, which is the value the
    program holds as long as the running sum stays within [INT_MIN] and
    [INT_MAX]; beyond that C leaves the addition undefined. *)
Definition get_centroid_divs (N : Z) (n_bodies : arr Z) (bodies : arr Body)
  : Body * list float :=
  (* mass and every x[k], v[k] are assigned .0 before the test on N *)
  let centroid := zero_body in
  if N =? 0 then (centroid, [])
  else
    let acc :=
      for_ N
        (fun i acc =>
           let sum_n_body := fst acc + n_bodies (Z.rem i NP) in
           let c := snd acc in
           let c := mkBody (mass c + mass (bodies i))%float (x c) (v c) in
           (sum_n_body,
            for_ N_DIM
              (fun k c =>
                 mkBody (mass c)
                   (vset (x c) k
                      (vget (x c) k + mass (bodies i) * vget (x (bodies i)) k)%float)
                   (vset (v c) k
                      (vget (v c) k
                       + double_of_int (n_bodies (Z.rem i NP))
                         * vget (v (bodies i)) k)%float))
              c))
        (0, centroid) in
    let sum_n_body := fst acc in
    for_ N_DIM
      (fun k cd =>
         let c := fst cd in
         let c := mkBody (mass c) (vset (x c) k (vget (x c) k / mass c)%float) (v c) in
         let c :=
           mkBody (mass c) (x c)
             (vset (v c) k (vget (v c) k / double_of_int sum_n_body)%float) in
         (c, snd cd ++ [mass c; double_of_int sum_n_body]))
      (snd acc, []).

Definition get_centroid (N : Z) (n_bodies : arr Z) (bodies : arr Body) : Body :=
  fst (get_centroid_divs N n_bodies bodies).

(** ** One process *)

(** The variables of [main] that live across phases of a time step. *)
Record proc : Type := mkProc {
  n_body : Z;
  bodies : arr Body;
  exile : arr Z;
  sendbuf : arr Body;
  recvbuf : arr Body
}.

(** The LocalStore of a process: [bodies[0 .. n_body-1]]. *)
Definition store (p : proc) : list Body := slice (bodies p) 0 (n_body p).

(** [memset(a, 0, NP * sizeof(int))]. *)
Definition zeros : arr Z := fun _ => 0.

(** [sum = 0; for (j < NP) { displ[j] = sum; sum += count[j]; }] *)
Definition displacements (count : arr Z) : arr Z * Z :=
  for_ NP (fun j ds => (upd (fst ds) j (snd ds), snd ds + count j)) (zeros, 0).

(** What a process hands to the variable-length exchange. *)
Record outbox : Type := mkOutbox {
  send_count : arr Z;
  send_displ : arr Z;
  out_buf : arr Body
}.

(** *** Ghost candidates (lines 209-235) *)

Definition ghost_count (n : Z) (bs : arr Body) : arr Z :=
  for_ n
    (fun i send_count =>
       let transmit := shouldSend (x (bs i)) zeros in
       for_ NP
         (fun j send_count =>
            if negb (transmit j =? 0) then upd send_count j (send_count j + 1)
            else send_count)
         send_count)
    zeros.

Definition ghost_fill (n : Z) (bs : arr Body) (sendbuf : arr Body)
    (send_displ : arr Z) : arr Body * arr Z :=
  for_ n
    (fun i sp =>
       let transmit := shouldSend (x (bs i)) zeros in
       for_ NP
         (fun j sp =>
            if negb (transmit j =? 0)
            then (upd (fst sp) (snd sp j) (bs i), upd (snd sp) j (snd sp j + 1))
            else sp)
         sp)
    (sendbuf, send_displ).

Definition ghost_outbox (p : proc) : outbox :=
  let send_count := ghost_count (n_body p) (bodies p) in
  let send_displ := fst (displacements send_count) in
  mkOutbox send_count send_displ
    (fst (ghost_fill (n_body p) (bodies p) (sendbuf p) send_displ)).

(** *** Force accumulation and integration (lines 258-278) *)

Definition accumulate_force (n sum : Z) (m : memory) (i : Z) : vec3 :=
  let F := zero3 in
  let F :=
    for_ n
      (fun j F => compute_force_as_vector m (mkPtr Bodies i) (mkPtr Bodies j) F)
      F in
  for_ sum
    (fun j F => compute_force_as_vector m (mkPtr Bodies i) (mkPtr Recvbuf j) F)
    F.

Definition integrate (DT : float) (F : vec3) (b : Body) : Body :=
  for_ N_DIM
    (fun k b =>
       let b :=
         mkBody (mass b) (x b)
           (vset (v b) k (vget (v b) k + vget F k * (DT / 2) / mass b)%float) in
       mkBody (mass b) (vset (x b) k (vget (x b) k + vget (v b) k * DT)%float)
         (v b))
    b.

(** The variables the loop over [i] assigns. *)
Record moved : Type := mkMoved {
  mv_bodies : arr Body;
  mv_send_count : arr Z;
  mv_exile : arr Z
}.

Definition update_body (rank : Z) (DT : float) (n sum : Z) (ghosts : arr Body)
    (i : Z) (st : moved) : moved :=
  let F := accumulate_force n sum (mkMem (mv_bodies st) ghosts) i in
  let bs := upd (mv_bodies st) i (integrate DT F (mv_bodies st i)) in
  let i_oct := get_octant_rank (x (bs i)) in
  if negb (i_oct =? rank)
  then mkMoved bs
         (upd (mv_send_count st) i_oct (mv_send_count st i_oct + 1))
         (upd (mv_exile st) i i_oct)
  else mkMoved bs (mv_send_count st) (upd (mv_exile st) i (-1)).

Definition update_bodies (rank : Z) (DT : float) (n sum : Z) (ghosts : arr Body)
    (bs : arr Body) (ex : arr Z) : moved :=
  for_ n (update_body rank DT n sum ghosts) (mkMoved bs zeros ex).

(** *** Export of the bodies that left the octant (lines 282-296) *)

Definition export_fill (n : Z) (bs : arr Body) (ex : arr Z) (sendbuf : arr Body)
    (send_displ : arr Z) : arr Body * arr Z :=
  for_ n
    (fun i sp =>
       let i_oct := ex i in
       if i_oct <? 0 then sp
       else (upd (fst sp) (snd sp i_oct) (bs i),
             upd (snd sp) i_oct (snd sp i_oct + 1)))
    (sendbuf, send_displ).

Definition export_outbox (n : Z) (st : moved) (sendbuf : arr Body) : outbox :=
  let send_displ := fst (displacements (mv_send_count st)) in
  mkOutbox (mv_send_count st) send_displ
    (fst (export_fill n (mv_bodies st) (mv_exile st) sendbuf send_displ)).

(** *** Merge of the received and the retained bodies (lines 315-325) *)

Definition keep_retained (n : Z) (bs : arr Body) (ex : arr Z) (recvbuf : arr Body)
    (sum : Z) : arr Body * Z :=
  for_ n
    (fun j ri =>
       if ex j <? 0 then (upd (fst ri) (snd ri) (bs j), snd ri + 1) else ri)
    (recvbuf, sum).

(** ** The eight processes *)

Definition world : Type := arr proc.

(** [per_rank f] is [f] with its values at the ranks [0 .. NP-1] computed
    once and kept in a table; see [per_rank_eq]. *)
Definition per_rank {A : Type} (f : arr A) : arr A :=
  let table := map f (ints NP) in
  fun r =>
    if (0 <=? r) && (r <? NP)
    then match nth_error table (Z.to_nat r) with
         | Some a => a
         | None => f r
         end
    else f r.

(** Entry [s] of the receive counts of process [r] is entry [r] of the send
    counts of process [s]. *)
Definition MPI_Alltoall (send_count : arr (arr Z)) (r : Z) : arr Z :=
  fun s => send_count s r.

(** Process [r] receives from each source [s] the [recv_count s] bodies
    found at [send_displ s r] in [s]'s send buffer, and stores them at
    [recv_displ s] in its receive buffer. *)
Definition MPI_Alltoallv (out : arr outbox) (r : Z) (recvbuf : arr Body)
    (recv_count recv_displ : arr Z) : arr Body :=
  for_ NP
    (fun s rb =>
       copy rb (recv_displ s) (out_buf (out s)) (send_displ (out s) r)
         (recv_count s))
    recvbuf.

(** Counts, then payload: what process [r] holds after the exchange, as
    (number of bodies received, receive buffer). *)
Definition peer_exchange (out : arr outbox) (r : Z) (recvbuf : arr Body)
  : Z * arr Body :=
  let recv_count := MPI_Alltoall (fun s => send_count (out s)) r in
  let ds := displacements recv_count in
  (snd ds, MPI_Alltoallv out r recvbuf recv_count (fst ds)).

(** Every process after the ghost exchange: (number of ghosts, receive
    buffer). *)
Definition ghost_exchange (w : world) : arr (Z * arr Body) :=
  let out := per_rank (fun s => ghost_outbox (w s)) in
  per_rank (fun r => peer_exchange out r (recvbuf (w r))).

(** Every process after the loop over its bodies: the integrated bodies,
    the export counts and the exile flags. *)
Definition after_forces (DT : float) (w : world) : arr moved :=
  let g := ghost_exchange w in
  per_rank
    (fun r =>
       update_bodies r DT (n_body (w r)) (fst (g r)) (snd (g r)) (bodies (w r))
         (exile (w r))).

Definition migrate (DT : float) (w : world) : world :=
  let g := ghost_exchange w in
  let mv := after_forces DT w in
  let out :=
    per_rank
      (fun s =>
         export_outbox (n_body (w s)) (mv s) (out_buf (ghost_outbox (w s)))) in
  per_rank
    (fun r =>
       let got := peer_exchange out r (snd (g r)) in
       let kept :=
         keep_retained (n_body (w r)) (mv_bodies (mv r)) (mv_exile (mv r))
           (snd got) (fst got) in
       let i := snd kept in
       mkProc i (copy (mv_bodies (mv r)) 0 (fst kept) 0 i) (mv_exile (mv r))
         (out_buf (out r)) (fst kept)).

(** One iteration of the loop over [t].  The report at multiples of
    [TIME_INTERVAL] changes no store; it gathers into the receive buffer of
    the root, every cell of which is rewritten by the ghost exchange before
    it is read again. *)
Definition timestep (DT : float) (w : world) : world := migrate DT w.

(** [for (t = 0; t < K; ++t)]. *)
Definition simulate (DT : float) (K : Z) (w : world) : world :=
  for_ K (fun _ w => timestep DT w) w.

(** The integrated bodies of process [r], before any is exported. *)
Definition moved_store (n : Z) (st : moved) : list Body :=
  slice (mv_bodies st) 0 n.

End Engine.

(** ** Notions used to state the properties *)

(** [d] is neither NaN nor an infinity. *)
Definition finite (d : float) : bool :=
  match Prim2SF d with
  | S754_zero _ | S754_finite _ _ _ => true
  | _ => false
  end.


(** The test [shouldSend] applies to [dist], as a boolean. *)
Definition rejects (dist : float) : bool :=
  (double_of_int (abs (int_of_double dist)) <? EPSILON)%float
  || (CUTOFF_SQR <? dist)%float.

(** The centroid a process contributes to a report (lines 202, 330). *)
Definition local_centroid (p : proc) : Body :=
  get_centroid (n_body p) ALL_ONES (bodies p).

(** The centroid [report] prints, from the gathered populations and local
    centroids (lines 203-205 and 103). *)
Definition global_centroid (w : world) : Body :=
  get_centroid NP (fun r => n_body (w r)) (fun r => local_centroid (w r)).

(** Sums taken left to right from zero, as the accumulating loops do. *)
Definition fsum (l : list float) : float := fold_left PrimFloat.add l 0%float.

Definition zsum (l : list Z) : Z := fold_left Z.add l 0.

(** The centroid of a list of (count, centroid) items in the words of the
    design: total mass; position weighted by mass; velocity weighted by
    count. *)
Definition weighted_centroid (items : list (Z * Body)) : Body :=
  let total_mass := fsum (map (fun nc => mass (snd nc)) items) in
  let total_count := double_of_int (zsum (map fst items)) in
  let pos k :=
    (fsum (map (fun nc => mass (snd nc) * vget (x (snd nc)) k) items)
     / total_mass)%float in
  let vel k :=
    (fsum (map (fun nc => double_of_int (fst nc) * vget (v (snd nc)) k) items)
     / total_count)%float in
  mkBody total_mass (V3 (pos 0) (pos 1) (pos 2)) (V3 (vel 0) (vel 1) (vel 2)).





(** The update of body [i] computed from the positions [bs] alone. *)
Definition snapshot_update (pow : float -> float -> float) (DT : float)
    (n sum : Z) (ghosts bs : arr Body) (i : Z) : Body :=
  integrate DT (accumulate_force pow n sum (mkMem bs ghosts) i) (bs i).

(** How many of the first [n] exile flags name the destination [d]. *)
Definition count_dest (ex : arr Z) (n d : Z) : Z :=
  Z.of_nat (length (filter (fun i => ex i =? d) (ints n))).

(** [c 0 + ... + c (d-1)]. *)
Definition prefix_sum (c : arr Z) (d : Z) : Z := for_ d (fun j s => s + c j) 0.

(** The integrated bodies of every process, before the migration. *)
Definition all_moved (pow : float -> float -> float) (DT : float) (w : world)
  : list Body :=
  flat_map (fun s => moved_store (n_body (w s)) (after_forces pow DT w s))
    (ints NP).

(** The bodies of the other processes whose new position is in octant [r]. *)
Definition arrivals (pow : float -> float -> float) (DT : float) (w : world)
    (r : Z) : list Body :=
  flat_map
    (fun s =>
       if s =? r then []
       else filter (fun b => get_octant_rank (x b) =? r)
              (moved_store (n_body (w s)) (after_forces pow DT w s)))
    (ints NP).

(** The bodies of process [r] whose new position is still in octant [r]. *)
Definition stayers (pow : float -> float -> float) (DT : float) (w : world)
    (r : Z) : list Body :=
  filter (fun b => get_octant_rank (x b) =? r)
    (moved_store (n_body (w r)) (after_forces pow DT w r)).

(** The stores of the eight processes, one after the other. *)
Definition all_bodies (w : world) : list Body :=
  flat_map (fun r => store (w r)) (ints NP).

(** The sum of the eight [n_body]. *)
Definition population (w : world) : Z := prefix_sum (fun r => n_body (w r)) NP.

(** ** A small world for the closed examples

    Octant 7 holds two bodies, the first of which is moving toward octant 6;
    octant 6 holds one body; the other six processes are empty. *)

Definition idle : proc :=
  mkProc 0 (fun _ => zero_body) zeros (fun _ => zero_body) (fun _ => zero_body).

Definition example_world : world :=
  fun r =>
    if r =? 7
    then mkProc 2
           (fun i => if i =? 0 then mkBody 1 (V3 1 1 1) (V3 (-2) 0 0)
                     else mkBody 1 (V3 2 1 1) zero3)
           zeros (fun _ => zero_body) (fun _ => zero_body)
    else if r =? 6
    then mkProc 1 (fun _ => mkBody 2 (V3 (-1) 1 1) zero3)
           zeros (fun _ => zero_body) (fun _ => zero_body)
    else idle.

(** ** Initial load and distribution (readdata, lines 42-72; main, 184-196) *)

(** The numbers [scanf] delivers, in reading order: N, K, DT, then the
    masses, the positions and the velocities, each indexed by body. *)
Record input : Type := mkInput {
  in_N : Z;
  in_K : Z;
  in_DT : float;
  in_mass : arr float;
  in_x : arr vec3;
  in_v : arr vec3
}.

(** What [readdata] leaves in its out-parameters. *)
Record loaded : Type := mkLoaded {
  ld_N : Z;
  ld_K : Z;
  ld_DT : float;
  ld_bodies : arr Body;
  ld_send_count : arr Z;
  ld_send_displ : arr Z
}.

(** [bodies] is the caller's array and [bds] the local one, both with the
    contents they have on entry. *)
Definition readdata (inp : input) (bodies bds : arr Body) : loaded :=
  let N := in_N inp in
  let bds :=
    for_ N
      (fun i bds => upd bds i (mkBody (in_mass inp i) (x (bds i)) (v (bds i))))
      bds in
  let counted :=
    for_ N
      (fun i bc =>
         let bds :=
           upd (fst bc) i
             (mkBody (mass (fst bc i)) (in_x inp i) (v (fst bc i))) in
         let i_oct := get_octant_rank (x (bds i)) in
         (bds, upd (snd bc) i_oct (snd bc i_oct + 1)))
      (bds, zeros) in
  let send_count := snd counted in
  let bds :=
    for_ N
      (fun i bds => upd bds i (mkBody (mass (bds i)) (x (bds i)) (in_v inp i)))
      (fst counted) in
  let send_displ := fst (displacements send_count) in
  let placed :=
    for_ N
      (fun i bp =>
         let i_oct := get_octant_rank (x (bds i)) in
         (upd (fst bp) (snd bp i_oct) (bds i),
          upd (snd bp) i_oct (snd bp i_oct + 1)))
      (bodies, send_displ) in
  mkLoaded N (in_K inp) (in_DT inp) (fst placed) send_count send_displ.

(** The bodies of the input, in reading order. *)
Definition input_bodies (inp : input) : list Body :=
  map (fun i => mkBody (in_mass inp i) (in_x inp i) (in_v inp i))
    (ints (in_N inp)).

(** The processes after [MPI_Scatter], [MPI_Scatterv] and the [memcpy] of
    line 196.  [boot r] holds the arrays of process [r] as they are before;
    the root (rank 0) has called [readdata] on the input. *)
Definition distribute (inp : input) (boot : world) (bds : arr Body) : world :=
  let ld := readdata inp (bodies (boot 0)) bds in
  per_rank
    (fun r =>
       let n := ld_send_count ld r in
       let rb :=
         copy (recvbuf (boot r)) 0 (ld_bodies ld) (ld_send_displ ld r) n in
       let own := if r =? 0 then ld_bodies ld else bodies (boot r) in
       mkProc n (copy own 0 rb 0 n) (exile (boot r)) (sendbuf (boot r)) rb).

(** The whole run: distribution, then the [K] time steps of size [DT] read
    from the input. *)
Definition run (pow : float -> float -> float) (inp : input) (boot : world)
    (bds : arr Body) : world :=
  simulate pow (in_DT inp) (in_K inp) (distribute inp boot bds).

(** An input of three bodies for the closed examples. *)
Definition example_input : input :=
  mkInput 3 2 0.5
    (fun i => if i =? 1 then 2%float else 1%float)
    (fun i => if i =? 0 then V3 1 1 1
              else if i =? 1 then V3 (-1) 1 1 else V3 2 1 1)
    (fun i => if i =? 0 then V3 (-2) 0 0 else zero3).

(** [b] is a ghost candidate for octant [d]: the flag [shouldSend] leaves
    in [transmit[d]] is non-zero. *)
Definition marked (pow : float -> float -> float) (b : Body) (d : Z) : bool :=
  negb (shouldSend pow (x b) zeros d =? 0).

(** The GhostSet of process [r]: the first [sum] cells of its receive
    buffer after the ghost exchange. *)
Definition ghost_set (pow : float -> float -> float) (w : world) (r : Z)
  : list Body :=
  slice (snd (ghost_exchange pow w r)) 0 (fst (ghost_exchange pow w r)).

(** How many of the indices below [n] satisfy [p]. *)
Definition count_of (p : Z -> bool) (n : Z) : Z :=
  Z.of_nat (length (filter p (ints n))).

(** A process with the store of [p] and other contents in every cell that
    is not part of the store. *)
Definition scribbled (p : proc) : proc :=
  mkProc (n_body p)
    (fun i => if (0 <=? i) && (i <? n_body p) then bodies p i
              else mkBody 9 (V3 9 9 9) (V3 9 9 9))
    (fun _ => 5)
    (fun _ => mkBody 7 (V3 7 7 7) zero3)
    (fun _ => mkBody 8 (V3 (-8) 8 8) zero3).

(** * Properties *)

(** ** Counted loops and array slices *)

Lemma Z_count_ind (P : Z -> Prop) :
  P 0 -> (forall j, 0 <= j -> P j -> P (j + 1)) -> forall n, 0 <= n -> P n.
Proof.
  intros H0 Hs n Hn. apply natlike_ind; [assumption| |assumption].
  intros j Hj IH. unfold Z.succ. now apply Hs.
Qed.

Lemma ints_nonpos (n : Z) : n <= 0 -> ints n = [].
Proof.
  intros H. unfold ints. replace (Z.to_nat n) with 0%nat by lia. reflexivity.
Qed.

Lemma ints_succ (n : Z) : 0 <= n -> ints (n + 1) = ints n ++ [n].
Proof.
  intros H. unfold ints.
  replace (Z.to_nat (n + 1)) with (S (Z.to_nat n)) by lia.
  rewrite seq_S, map_app. simpl. now rewrite Z2Nat.id.
Qed.

Lemma in_ints (n i : Z) : In i (ints n) <-> 0 <= i < n.
Proof.
  unfold ints. rewrite in_map_iff. split.
  - intros [k [<- Hk]]. apply in_seq in Hk. lia.
  - intros H. exists (Z.to_nat i). split; [lia|]. apply in_seq. lia.
Qed.

Lemma NoDup_ints (n : Z) : NoDup (ints n).
Proof.
  unfold ints. apply Finite.Injective_map_NoDup.
  - intros a b. apply Nat2Z.inj.
  - apply seq_NoDup.
Qed.

Lemma length_ints (n : Z) : 0 <= n -> Z.of_nat (length (ints n)) = n.
Proof.
  intros H. unfold ints. rewrite length_map, length_seq. lia.
Qed.

Lemma for_nonpos {S : Type} (n : Z) (body : Z -> S -> S) (s : S) :
  n <= 0 -> for_ n body s = s.
Proof. intros H. unfold for_. now rewrite ints_nonpos. Qed.

Lemma for_succ {S : Type} (n : Z) (body : Z -> S -> S) (s : S) :
  0 <= n -> for_ (n + 1) body s = body n (for_ n body s).
Proof.
  intros H. unfold for_. rewrite ints_succ by assumption.
  now rewrite fold_left_app.
Qed.

(** The invariant rule of a counted loop. *)
Lemma for_invariant {S : Type} (P : Z -> S -> Prop) (n : Z)
    (body : Z -> S -> S) (s : S) :
  0 <= n ->
  P 0 s ->
  (forall i t, 0 <= i < n -> P i t -> P (i + 1) (body i t)) ->
  P n (for_ n body s).
Proof.
  intros Hn H0 Hstep.
  assert (forall k, 0 <= k -> k <= n -> P k (for_ k body s)) as Hall.
  { intros k Hk. pattern k. apply Z_count_ind; [| |assumption].
    - intros _. now rewrite for_nonpos by lia.
    - intros j Hj IH Hle. rewrite for_succ by assumption.
      apply Hstep; [lia|]. apply IH. lia. }
  apply Hall; lia.
Qed.

Lemma for_ext {S : Type} (n : Z) (f g : Z -> S -> S) (s : S) :
  (forall i t, 0 <= i < n -> f i t = g i t) -> for_ n f s = for_ n g s.
Proof.
  intros H. destruct (Z_le_gt_dec 0 n) as [Hn|Hn].
  - apply (for_invariant (fun k t => k <= n -> t = for_ k g s) n f s Hn).
    + intros _. now rewrite for_nonpos by lia.
    + intros i t Hi IH _. rewrite for_succ by lia. rewrite H by lia.
      f_equal. apply IH. lia.
    + lia.
  - now rewrite !for_nonpos by lia.
Qed.

Lemma upd_same {A : Type} (a : arr A) (i : Z) (v : A) : upd a i v i = v.
Proof. unfold upd. now rewrite Z.eqb_refl. Qed.

Lemma upd_other {A : Type} (a : arr A) (i j : Z) (v : A) :
  j <> i -> upd a i v j = a j.
Proof. intros H. unfold upd. apply Z.eqb_neq in H. now rewrite H. Qed.

Lemma slice_nonpos {A : Type} (a : arr A) (off len : Z) :
  len <= 0 -> slice a off len = [].
Proof. intros H. unfold slice. now rewrite ints_nonpos. Qed.

Lemma slice_succ {A : Type} (a : arr A) (off len : Z) :
  0 <= len -> slice a off (len + 1) = slice a off len ++ [a (off + len)].
Proof.
  intros H. unfold slice. rewrite ints_succ by assumption. now rewrite map_app.
Qed.

Lemma slice_ext {A : Type} (a b : arr A) (off len : Z) :
  (forall j, off <= j < off + len -> a j = b j) ->
  slice a off len = slice b off len.
Proof.
  intros H. unfold slice. apply map_ext_in. intros k Hk.
  apply in_ints in Hk. apply H. lia.
Qed.

Lemma length_slice {A : Type} (a : arr A) (off len : Z) :
  0 <= len -> Z.of_nat (length (slice a off len)) = len.
Proof. intros H. unfold slice. rewrite length_map. now apply length_ints. Qed.

Lemma in_slice {A : Type} (a : arr A) (off len : Z) (b : A) :
  In b (slice a off len) <-> exists j, off <= j < off + len /\ a j = b.
Proof.
  unfold slice. rewrite in_map_iff. split.
  - intros [k [<- Hk]]. apply in_ints in Hk. exists (off + k). split; [lia|easy].
  - intros [j [Hj <-]]. exists (j - off). split; [f_equal; lia|].
    apply in_ints. lia.
Qed.

Lemma slice_app {A : Type} (a : arr A) (off n m : Z) :
  0 <= n -> 0 <= m ->
  slice a off (n + m) = slice a off n ++ slice a (off + n) m.
Proof.
  intros Hn Hm. pattern m. apply Z_count_ind; [| |assumption].
  - rewrite Z.add_0_r, (slice_nonpos a (off + n) 0) by lia. now rewrite app_nil_r.
  - intros k Hk IH. replace (n + (k + 1)) with ((n + k) + 1) by lia.
    rewrite slice_succ by lia. rewrite IH.
    rewrite (slice_succ a (off + n)) by lia.
    rewrite <- app_assoc. replace (off + (n + k)) with (off + n + k) by lia.
    reflexivity.
Qed.

Lemma slice_upd_outside {A : Type} (a : arr A) (off len i : Z) (v : A) :
  i < off \/ off + len <= i ->
  slice (upd a i v) off len = slice a off len.
Proof.
  intros H. apply slice_ext. intros j Hj. apply upd_other. lia.
Qed.

Lemma slice_upd_end {A : Type} (a : arr A) (off len : Z) (v : A) :
  0 <= len ->
  slice (upd a (off + len) v) off (len + 1) = slice a off len ++ [v].
Proof.
  intros H. rewrite slice_succ by assumption. rewrite upd_same.
  now rewrite slice_upd_outside by lia.
Qed.

Lemma slice_copy_outside {A : Type} (dst src : arr A) (doff soff len off n : Z) :
  off + n <= doff \/ doff + len <= off ->
  slice (copy dst doff src soff len) off n = slice dst off n.
Proof.
  intros H. apply slice_ext. intros j Hj. unfold copy.
  destruct (doff <=? j) eqn:E1; destruct (j <? doff + len) eqn:E2; simpl;
    try reflexivity.
  apply Z.leb_le in E1. apply Z.ltb_lt in E2. lia.
Qed.

Lemma slice_copy_inside {A : Type} (dst src : arr A) (doff soff len : Z) :
  slice (copy dst doff src soff len) doff len = slice src soff len.
Proof.
  unfold slice. apply map_ext_in. intros k Hk. apply in_ints in Hk.
  unfold copy.
  replace (doff <=? doff + k) with true by (symmetry; apply Z.leb_le; lia).
  replace (doff + k <? doff + len) with true by (symmetry; apply Z.ltb_lt; lia).
  simpl. f_equal. lia.
Qed.

Lemma per_rank_eq {A : Type} (f : arr A) (r : Z) : per_rank f r = f r.
Proof.
  unfold per_rank.
  destruct ((0 <=? r) && (r <? NP)) eqn:E; [|reflexivity].
  apply andb_prop in E. destruct E as [E1 E2].
  apply Z.leb_le in E1. apply Z.ltb_lt in E2.
  destruct (nth_error (map f (ints NP)) (Z.to_nat r)) eqn:En; [|reflexivity].
  unfold ints in En. rewrite map_map in En.
  rewrite nth_error_map in En.
  rewrite nth_error_seq in En.
  destruct (Nat.ltb (Z.to_nat r) (Z.to_nat NP)) eqn:El; simpl in En.
  - injection En as <-. f_equal. lia.
  - discriminate.
Qed.

(** ** Floating-point facts *)

Lemma zero_not_positive (d : float) :
  (d =? 0)%float = true -> (0 <? d)%float = false.
Proof.
  rewrite eqb_spec, ltb_spec.
  change (Prim2SF 0) with (S754_zero false).
  unfold SFeqb, SFltb, SFcompare.
  destruct (Prim2SF d) as [s|s| |s m e]; try destruct s; congruence.
Qed.

(** ** Domain partitioner *)

Lemma get_octant_rank_range (dims : vec3) : 0 <= get_octant_rank dims < NP.
Proof.
  unfold get_octant_rank, int_of_bool, NP.
  destruct (0 <? vget dims 2)%float, (0 <? vget dims 1)%float,
    (0 <? vget dims 0)%float; lia.
Qed.

(** C6: the octant of a position is 4*[z>0] + 2*[y>0] + [x>0] with strict
    comparisons; it lies in [0,7]; and a coordinate equal to zero (+0.0 or
    -0.0) contributes the bit 0, that is, the negative side of its axis. *)
Theorem get_octant_rank_sign_convention (dims : vec3) :
  get_octant_rank dims
  = 4 * int_of_bool (0 <? c2 dims)%float
    + 2 * int_of_bool (0 <? c1 dims)%float
    + int_of_bool (0 <? c0 dims)%float
  /\ 0 <= get_octant_rank dims <= 7
  /\ (forall k, 0 <= k < N_DIM ->
        (vget dims k =? 0)%float = true ->
        Z.testbit (get_octant_rank dims) k = false).
Proof.
  split; [|split].
  - unfold get_octant_rank. change (vget dims 2) with (c2 dims).
    change (vget dims 1) with (c1 dims). change (vget dims 0) with (c0 dims).
    lia.
  - pose proof (get_octant_rank_range dims). unfold NP in *. lia.
  - intros k Hk Hz. apply zero_not_positive in Hz.
    unfold N_DIM in Hk.
    assert (k = 0 \/ k = 1 \/ k = 2) as [-> | [-> | ->]] by lia;
      unfold get_octant_rank; rewrite Hz; unfold int_of_bool;
      destruct (0 <? vget dims 2)%float, (0 <? vget dims 1)%float,
        (0 <? vget dims 0)%float; reflexivity.
Qed.

Lemma get_octant_rank_sign_convention_witness :
  get_octant_rank (V3 0 (-3) 2) = 4
  /\ Z.testbit (get_octant_rank (V3 0 (-3) 2)) 0 = false.
Proof.
  split; [reflexivity|].
  apply (get_octant_rank_sign_convention (V3 0 (-3) 2)); [unfold N_DIM; lia|].
  reflexivity.
Defined.

(** ** Ghost-exchange candidate test *)

Lemma shouldSend_entries (pow : float -> float -> float) (pos : vec3)
    (transmit : arr Z) (o : Z) :
  shouldSend pow pos transmit o
  = if (0 <=? o) && (o <? NP)
    then if rejects (boundary_dist pow pos o) then 0 else 1
    else transmit o.
Proof.
  unfold shouldSend.
  apply (for_invariant
           (fun k t =>
              t o = if (0 <=? o) && (o <? k)
                    then if rejects (boundary_dist pow pos o) then 0 else 1
                    else transmit o)).
  - unfold NP; lia.
  - destruct (0 <=? o) eqn:E1; destruct (o <? 0) eqn:E2; simpl; try reflexivity.
    apply Z.leb_le in E1. apply Z.ltb_lt in E2. lia.
  - intros i t Hi IH. fold (rejects (boundary_dist pow pos i)).
    destruct (Z.eq_dec o i) as [->|Hne].
    + replace ((0 <=? i) && (i <? i + 1)) with true
        by (symmetry; apply andb_true_intro; split;
            [apply Z.leb_le|apply Z.ltb_lt]; lia).
      destruct (rejects (boundary_dist pow pos i)); apply upd_same.
    + assert ((o <? i + 1) = (o <? i)) as ->.
      { destruct (o <? i) eqn:E; [apply Z.ltb_lt in E; apply Z.ltb_lt; lia|].
        apply Z.ltb_ge in E. apply Z.ltb_ge. lia. }
      destruct (rejects (boundary_dist pow pos i));
        rewrite upd_other by assumption; exact IH.
Qed.

(** C1: at the position (-0.5, 1, 1), owned by octant 6, the squared
    distance to octant 7 accumulated by the test is 0.25, which lies
    strictly between EPSILON and CUTOFF_SQR; [abs] receives it truncated to
    the integer 0, and the body is not marked for octant 7. *)
Theorem shouldSend_omits_body_near_boundary :
  get_octant_rank (V3 (-0.5) 1 1) = 6
  /\ boundary_dist pow_ref (V3 (-0.5) 1 1) 7 = 0.25%float
  /\ (EPSILON <? 0.25)%float = true
  /\ (0.25 <? CUTOFF_SQR)%float = true
  /\ abs (int_of_double 0.25) = 0
  /\ shouldSend pow_ref (V3 (-0.5) 1 1) zeros 7 = 0.
Proof. vm_compute. repeat split; reflexivity. Qed.

(** ** Force kernel *)

(** C4: when the squared separation of two bodies exceeds CUTOFF_SQR, the
    kernel returns the accumulator it was given: the contribution is zero. *)
Theorem beyond_cutoff_contributes_nothing (pow : float -> float -> float)
    (m : memory) (this that : ptr) (vec : vec3) :
  (CUTOFF_SQR <? sq_separation pow (load m this) (load m that))%float = true ->
  compute_force_as_vector pow m this that vec = vec.
Proof.
  intros H. unfold compute_force_as_vector.
  destruct (ptr_eqb this that); [reflexivity|]. now rewrite H.
Qed.

Lemma beyond_cutoff_contributes_nothing_witness :
  let m :=
    mkMem (fun i => if i =? 0 then mkBody 1 (V3 0 0 0) zero3
                    else mkBody 2 (V3 6 0 0) zero3)
      (fun _ => zero_body) in
  sq_separation pow_ref (load m (mkPtr Bodies 0)) (load m (mkPtr Bodies 1))
  = 36%float
  /\ compute_force_as_vector pow_ref m (mkPtr Bodies 0) (mkPtr Bodies 1)
       (V3 1 2 3) = V3 1 2 3.
Proof.
  split; [reflexivity|].
  apply (beyond_cutoff_contributes_nothing pow_ref). reflexivity.
Defined.

(** ** Centroids *)

(** C8: on an empty store (N = 0) [get_centroid] returns the zero centroid
    and executes no division at all; so does the local centroid of a
    process that owns no body. *)
Theorem empty_store_centroid_is_zero (n_bodies : arr Z) (bs : arr Body) :
  get_centroid_divs 0 n_bodies bs = (zero_body, [])
  /\ get_centroid 0 n_bodies bs = zero_body
  /\ (forall p : proc, n_body p = 0 -> local_centroid p = zero_body).
Proof.
  split; [reflexivity|]. split; [reflexivity|].
  intros p H. unfold local_centroid. now rewrite H.
Qed.

Lemma empty_store_centroid_is_zero_witness :
  local_centroid (mkProc 0 (fun _ => mkBody 1 (V3 1 1 1) (V3 1 1 1)) zeros
                    (fun _ => zero_body) (fun _ => zero_body)) = zero_body.
Proof.
  apply (empty_store_centroid_is_zero zeros (fun _ => zero_body)). reflexivity.
Defined.

Lemma for_3 {S : Type} (body : Z -> S -> S) (s : S) :
  for_ N_DIM body s = body 2 (body 1 (body 0 s)).
Proof. reflexivity. Qed.

Lemma fsum_snoc (l : list float) (a : float) :
  fsum (l ++ [a]) = (fsum l + a)%float.
Proof. unfold fsum. now rewrite fold_left_app. Qed.

Lemma zsum_snoc (l : list Z) (a : Z) : zsum (l ++ [a]) = zsum l + a.
Proof. unfold zsum. now rewrite fold_left_app. Qed.

(** The items [get_centroid] averages: body [i] with the count found at
    [i % NP]. *)
Lemma get_centroid_weighted (N : Z) (n_bodies : arr Z) (bs : arr Body) :
  0 < N ->
  get_centroid N n_bodies bs
  = weighted_centroid (map (fun i => (n_bodies (Z.rem i NP), bs i)) (ints N)).
Proof.
  intros HN. unfold get_centroid, get_centroid_divs.
  replace (N =? 0) with false by (symmetry; apply Z.eqb_neq; lia).
  set (items := fun k => map (fun i => (n_bodies (Z.rem i NP), bs i)) (ints k)).
  set (step := fun (i : Z) (acc : Z * Body) => _).
  assert (for_ N step (0, zero_body)
          = (zsum (map fst (items N)),
             mkBody (fsum (map (fun nc => mass (snd nc)) (items N)))
               (V3 (fsum (map (fun nc => mass (snd nc) * vget (x (snd nc)) 0)%float (items N)))
                   (fsum (map (fun nc => mass (snd nc) * vget (x (snd nc)) 1)%float (items N)))
                   (fsum (map (fun nc => mass (snd nc) * vget (x (snd nc)) 2)%float (items N))))
               (V3 (fsum (map (fun nc => double_of_int (fst nc) * vget (v (snd nc)) 0)%float (items N)))
                   (fsum (map (fun nc => double_of_int (fst nc) * vget (v (snd nc)) 1)%float (items N)))
                   (fsum (map (fun nc => double_of_int (fst nc) * vget (v (snd nc)) 2)%float (items N)))))) as Hloop.
  { pattern N at 1 2 3 4 5 6 7 8 9.
    apply for_invariant
      with (P := fun k acc =>
        acc = (zsum (map fst (items k)),
             mkBody (fsum (map (fun nc => mass (snd nc)) (items k)))
               (V3 (fsum (map (fun nc => mass (snd nc) * vget (x (snd nc)) 0)%float (items k)))
                   (fsum (map (fun nc => mass (snd nc) * vget (x (snd nc)) 1)%float (items k)))
                   (fsum (map (fun nc => mass (snd nc) * vget (x (snd nc)) 2)%float (items k))))
               (V3 (fsum (map (fun nc => double_of_int (fst nc) * vget (v (snd nc)) 0)%float (items k)))
                   (fsum (map (fun nc => double_of_int (fst nc) * vget (v (snd nc)) 1)%float (items k)))
                   (fsum (map (fun nc => double_of_int (fst nc) * vget (v (snd nc)) 2)%float (items k)))))).
    - lia.
    - reflexivity.
    - intros i acc Hi ->. unfold step, items.
      rewrite ints_succ by lia. rewrite !map_app. simpl map.
      rewrite zsum_snoc, !fsum_snoc. rewrite for_3. reflexivity. }
  rewrite Hloop. rewrite for_3. reflexivity.
Qed.

(** With counts that are populations, the running value of [sum_n_body]
    never leaves the range of a C [int]. *)
Lemma zsum_prefix_bounds (f : arr Z) (n : Z) :
  (forall r, 0 <= r < n -> 0 <= f r) ->
  forall k, 0 <= k <= n ->
    0 <= zsum (map f (ints k)) <= zsum (map f (ints n)).
Proof.
  intros Hf.
  assert (forall k, 0 <= k -> k <= n -> 0 <= zsum (map f (ints k))) as Hpos.
  { intros k Hk. pattern k. apply Z_count_ind; [intros _; reflexivity| |assumption].
    intros j Hj IH Hjn. rewrite ints_succ, map_app by assumption.
    cbn [map]. rewrite zsum_snoc. specialize (IH ltac:(lia)).
    specialize (Hf j ltac:(lia)). lia. }
  assert (forall d, 0 <= d -> forall k, 0 <= k -> k + d <= n ->
            zsum (map f (ints k)) <= zsum (map f (ints (k + d)))) as Hmono.
  { intros d Hd. pattern d. apply Z_count_ind; [| |assumption].
    - intros k Hk _. rewrite Z.add_0_r. lia.
    - intros e He IH k Hk Hke. rewrite Z.add_assoc.
      rewrite ints_succ, map_app by lia. cbn [map]. rewrite zsum_snoc.
      specialize (IH k Hk ltac:(lia)). specialize (Hf (k + e) ltac:(lia)). lia. }
  intros k Hk. split; [apply Hpos; lia|].
  pose proof (Hmono (n - k) ltac:(lia) k ltac:(lia) ltac:(lia)) as H.
  replace (k + (n - k)) with n in H by lia. exact H.
Qed.

(** C9: for any eight population counts (none negative, their sum within
    [int]) and any eight local centroids, the centroid [get_centroid]
    computes for the coordinator has as mass the sum of the eight masses, as
    position the sum of mass * position divided by that total mass, and as
    velocity the sum of count * velocity divided by the total count, every
    sum taken in rank order in binary64; meanwhile [sum_n_body] stays within
    [int].  This is the centroid reported for a world whose processes hold
    these counts and local centroids. *)
Theorem global_centroid_weighting (n_bodies : arr Z) (centroids : arr Body) :
  (forall r, 0 <= r < NP -> 0 <= n_bodies r) ->
  zsum (map n_bodies (ints NP)) <= INT_MAX ->
  let items := map (fun r => (n_bodies r, centroids r)) (ints NP) in
  get_centroid NP n_bodies centroids = weighted_centroid items
  /\ mass (get_centroid NP n_bodies centroids)
     = fsum (map (fun r => mass (centroids r)) (ints NP))
  /\ (forall k, 0 <= k < N_DIM ->
        vget (x (get_centroid NP n_bodies centroids)) k
        = (fsum (map (fun r => mass (centroids r) * vget (x (centroids r)) k)
                   (ints NP))
           / fsum (map (fun r => mass (centroids r)) (ints NP)))%float
        /\ vget (v (get_centroid NP n_bodies centroids)) k
           = (fsum (map (fun r => double_of_int (n_bodies r)
                                  * vget (v (centroids r)) k) (ints NP))
              / double_of_int (zsum (map n_bodies (ints NP))))%float)
  /\ (forall k, 0 <= k <= NP ->
        INT_MIN <= zsum (map n_bodies (ints k)) <= INT_MAX)
  /\ (forall w : world,
        (forall r, 0 <= r < NP ->
           n_body (w r) = n_bodies r /\ local_centroid (w r) = centroids r) ->
        global_centroid w = weighted_centroid items).
Proof.
  intros Hpos Hsum items.
  assert (forall (c : arr Z) (b : arr Body),
            (forall r, 0 <= r < NP -> c r = n_bodies r /\ b r = centroids r) ->
            get_centroid NP c b = weighted_centroid items) as Heq.
  { intros c b Hcb. rewrite get_centroid_weighted by (unfold NP; lia).
    unfold items. f_equal. apply map_ext_in. intros r Hr.
    apply in_ints in Hr. rewrite Z.rem_small by assumption.
    destruct (Hcb r Hr) as [-> ->]. reflexivity. }
  rewrite (Heq n_bodies centroids) by (intros; split; reflexivity).
  unfold weighted_centroid, items. rewrite !map_map. cbn [fst snd mass x v].
  split; [reflexivity|]. split; [reflexivity|]. split; [|split].
  - intros k Hk. unfold N_DIM in Hk.
    assert (k = 0 \/ k = 1 \/ k = 2) as [-> | [-> | ->]] by lia;
      split; reflexivity.
  - intros k Hk. pose proof (zsum_prefix_bounds n_bodies NP Hpos k Hk) as Hb.
    unfold INT_MIN. change (- 2 ^ 31) with (-2147483648). lia.
  - intros w Hw. unfold global_centroid.
    rewrite (Heq (fun r => n_body (w r)) (fun r => local_centroid (w r)))
      by exact Hw.
    unfold weighted_centroid, items. rewrite !map_map. reflexivity.
Qed.

(** Two units: three bodies with local centroid mass 1, position (1, 2, 3),
    velocity (1, 2, 3), and one body with local centroid mass 3, position
    (5, 6, 7), velocity (5, 6, 7).  The position (4, 5, 6) is weighted 1 : 3
    by mass, the velocity (2, 3, 4) is weighted 3 : 1 by count. *)
Lemma global_centroid_weighting_witness :
  let n_bodies : arr Z := fun r => if r =? 0 then 3 else if r =? 1 then 1 else 0 in
  let centroids : arr Body := fun r =>
    if r =? 0 then mkBody 1 (V3 1 2 3) (V3 1 2 3)
    else if r =? 1 then mkBody 3 (V3 5 6 7) (V3 5 6 7)
    else zero_body in
  get_centroid NP n_bodies centroids = mkBody 4 (V3 4 5 6) (V3 2 3 4)
  /\ weighted_centroid (map (fun r => (n_bodies r, centroids r)) (ints NP))
     = mkBody 4 (V3 4 5 6) (V3 2 3 4).
Proof.
  intros n_bodies centroids.
  assert (forall r, 0 <= r < NP -> 0 <= n_bodies r) as Hpos.
  { intros r _. unfold n_bodies.
    destruct (r =? 0); [lia|]. destruct (r =? 1); lia. }
  assert (zsum (map n_bodies (ints NP)) <= INT_MAX) as Hsum.
  { vm_compute. discriminate. }
  destruct (global_centroid_weighting n_bodies centroids Hpos Hsum) as [H _].
  split; [reflexivity|]. rewrite <- H. reflexivity.
Defined.

(** ** Force accumulation *)

Section Forces.

Variable pow : float -> float -> float.








End Forces.


(** ** Counts and displacements *)

Lemma filter_ints_succ (p : Z -> bool) (k : Z) :
  0 <= k ->
  filter p (ints (k + 1)) = filter p (ints k) ++ (if p k then [k] else []).
Proof.
  intros H. rewrite ints_succ by assumption. rewrite filter_app. simpl.
  now destruct (p k).
Qed.

Lemma filter_ints_ext (p q : Z -> bool) (n : Z) :
  (forall i, 0 <= i < n -> p i = q i) -> filter p (ints n) = filter q (ints n).
Proof.
  intros H. apply filter_ext_in. intros i Hi. apply in_ints in Hi. now apply H.
Qed.

Lemma count_dest_succ (ex : arr Z) (k d : Z) :
  0 <= k ->
  count_dest ex (k + 1) d = count_dest ex k d + (if ex k =? d then 1 else 0).
Proof.
  intros H. unfold count_dest. rewrite filter_ints_succ by assumption.
  rewrite length_app. destruct (ex k =? d); simpl; lia.
Qed.

Lemma count_dest_nonneg (ex : arr Z) (n d : Z) : 0 <= count_dest ex n d.
Proof. unfold count_dest. lia. Qed.

Lemma count_dest_ext (ex ex' : arr Z) (n d : Z) :
  (forall i, 0 <= i < n -> ex i = ex' i) -> count_dest ex n d = count_dest ex' n d.
Proof.
  intros H. unfold count_dest. do 2 f_equal. apply filter_ints_ext.
  intros i Hi. now rewrite H.
Qed.

Lemma count_dest_mono (ex : arr Z) (k n d : Z) :
  0 <= k -> k <= n -> count_dest ex k d <= count_dest ex n d.
Proof.
  intros Hk Hle. replace n with (k + (n - k)) by lia.
  assert (0 <= n - k) as Hd by lia. revert Hd. generalize (n - k).
  intros e He. pattern e. apply Z_count_ind; [| |assumption].
  - rewrite Z.add_0_r. lia.
  - intros j Hj IH. replace (k + (j + 1)) with ((k + j) + 1) by lia.
    rewrite count_dest_succ by lia. destruct (ex (k + j) =? d); lia.
Qed.

Lemma prefix_sum_succ (c : arr Z) (d : Z) :
  0 <= d -> prefix_sum c (d + 1) = prefix_sum c d + c d.
Proof. intros H. unfold prefix_sum. now rewrite for_succ. Qed.

Lemma prefix_sum_nonpos (c : arr Z) (d : Z) : d <= 0 -> prefix_sum c d = 0.
Proof. intros H. unfold prefix_sum. now rewrite for_nonpos. Qed.

Lemma prefix_sum_ext (c c' : arr Z) (d : Z) :
  (forall j, 0 <= j < d -> c j = c' j) -> prefix_sum c d = prefix_sum c' d.
Proof.
  intros H. unfold prefix_sum. apply for_ext. intros i t Hi. now rewrite H.
Qed.

Lemma prefix_sum_mono (c : arr Z) (d e : Z) :
  (forall j, 0 <= j < e -> 0 <= c j) ->
  0 <= d -> d <= e -> prefix_sum c d <= prefix_sum c e.
Proof.
  intros Hc Hd Hle. assert (0 <= e) as He by lia. revert Hc Hle.
  pattern e. apply Z_count_ind; [| |assumption].
  - intros _ Hle. replace d with 0 by lia. lia.
  - intros j Hj IH Hc Hle. rewrite prefix_sum_succ by assumption.
    destruct (Z.eq_dec d (j + 1)) as [->|Hne].
    + rewrite prefix_sum_succ by assumption. lia.
    + assert (prefix_sum c d <= prefix_sum c j).
      { apply IH; [|lia]. intros i Hi. apply Hc. lia. }
      assert (0 <= c j) by (apply Hc; lia). lia.
Qed.

Lemma prefix_sum_nonneg (c : arr Z) (e : Z) :
  (forall j, 0 <= j < e -> 0 <= c j) -> 0 <= prefix_sum c e.
Proof.
  intros Hc. destruct (Z_le_gt_dec 0 e) as [He|He].
  - rewrite <- (prefix_sum_nonpos c 0) at 1 by lia.
    apply prefix_sum_mono; auto; lia.
  - rewrite prefix_sum_nonpos by lia. lia.
Qed.

Lemma displacements_spec (c : arr Z) :
  snd (displacements c) = prefix_sum c NP
  /\ (forall d, 0 <= d < NP -> fst (displacements c) d = prefix_sum c d).
Proof.
  unfold displacements.
  apply (for_invariant
           (fun k ds =>
              snd ds = prefix_sum c k
              /\ (forall d, 0 <= d < k -> fst ds d = prefix_sum c d))).
  - unfold NP. lia.
  - split; [reflexivity|]. intros d Hd. lia.
  - intros i ds Hi [Hs Hf]. cbn [fst snd]. split.
    + rewrite prefix_sum_succ by lia. f_equal. exact Hs.
    + intros d Hd. destruct (Z.eq_dec d i) as [->|Hne].
      * now rewrite upd_same.
      * rewrite upd_other by assumption. apply Hf. lia.
Qed.

(** ** The loop over the bodies of a process *)

Lemma mv_bodies_update_body (pow : float -> float -> float) (rank : Z)
    (DT : float) (n sum : Z) (ghosts : arr Body) (i : Z) (st : moved) :
  mv_bodies (update_body pow rank DT n sum ghosts i st)
  = upd (mv_bodies st) i
      (integrate DT
         (accumulate_force pow n sum (mkMem (mv_bodies st) ghosts) i)
         (mv_bodies st i)).
Proof.
  unfold update_body.
  destruct (negb _); reflexivity.
Qed.

Lemma mv_exile_update_body (pow : float -> float -> float) (rank : Z)
    (DT : float) (n sum : Z) (ghosts : arr Body) (i : Z) (st : moved) :
  mv_exile (update_body pow rank DT n sum ghosts i st)
  = upd (mv_exile st) i
      (let c :=
         get_octant_rank
           (x (mv_bodies (update_body pow rank DT n sum ghosts i st) i)) in
       if c =? rank then -1 else c).
Proof.
  rewrite mv_bodies_update_body. unfold update_body. cbv zeta.
  destruct (get_octant_rank _ =? rank); reflexivity.
Qed.

Lemma accumulate_force_ext (pow : float -> float -> float) (n sum : Z)
    (a b ghosts : arr Body) (i : Z) :
  (forall j, 0 <= j < n -> a j = b j) ->
  a i = b i ->
  accumulate_force pow n sum (mkMem a ghosts) i
  = accumulate_force pow n sum (mkMem b ghosts) i.
Proof.
  intros H Hi. unfold accumulate_force.
  rewrite (for_ext n
             (fun j F => compute_force_as_vector pow (mkMem a ghosts)
                           (mkPtr Bodies i) (mkPtr Bodies j) F)
             (fun j F => compute_force_as_vector pow (mkMem b ghosts)
                           (mkPtr Bodies i) (mkPtr Bodies j) F)).
  - apply for_ext. intros j F Hj. unfold compute_force_as_vector, load. simpl.
    now rewrite Hi.
  - intros j F Hj. unfold compute_force_as_vector, load. simpl.
    now rewrite Hi, (H j Hj).
Qed.

Section BodyLoop.

Variable pow : float -> float -> float.
Variables (rank : Z) (DT : float) (n sum : Z) (ghosts bs : arr Body) (ex : arr Z).

(** The state after the first [k] iterations. *)
Let run (k : Z) : moved :=
  for_ k (update_body pow rank DT n sum ghosts) (mkMoved bs zeros ex).

Lemma run_succ (k : Z) :
  0 <= k -> run (k + 1) = update_body pow rank DT n sum ghosts k (run k).
Proof. intros H. unfold run. now rewrite for_succ. Qed.

Lemma run_untouched (k j : Z) :
  0 <= k -> k <= j ->
  mv_bodies (run k) j = bs j /\ mv_exile (run k) j = ex j.
Proof.
  intros Hk. revert j. pattern k. apply Z_count_ind; [| |assumption].
  - intros j _. unfold run. rewrite for_nonpos by lia. now split.
  - intros i Hi IH j Hj. rewrite run_succ by assumption.
    rewrite mv_bodies_update_body, mv_exile_update_body.
    rewrite !upd_other by lia. apply IH. lia.
Qed.

Lemma run_settled (k k' j : Z) :
  0 <= k -> k <= k' -> j < k ->
  mv_bodies (run k') j = mv_bodies (run k) j
  /\ mv_exile (run k') j = mv_exile (run k) j.
Proof.
  intros Hk Hle Hj.
  replace k' with (k + (k' - k)) by lia.
  assert (0 <= k' - k) as Hd by lia. revert Hd.
  generalize (k' - k). intros d Hd. pattern d.
  apply Z_count_ind; [| |assumption].
  - rewrite Z.add_0_r. now split.
  - intros e He IH. replace (k + (e + 1)) with ((k + e) + 1) by lia.
    rewrite run_succ by lia.
    rewrite mv_bodies_update_body, mv_exile_update_body.
    rewrite !upd_other by lia. exact IH.
Qed.

Lemma run_body (i : Z) :
  0 <= i < n ->
  mv_bodies (run n) i
  = integrate DT
      (accumulate_force pow n sum (mkMem (mv_bodies (run i)) ghosts) i) (bs i).
Proof.
  intros Hi.
  destruct (run_settled (i + 1) n i) as [-> _]; try lia.
  rewrite run_succ by lia. rewrite mv_bodies_update_body, upd_same.
  destruct (run_untouched i i) as [-> _]; try lia. reflexivity.
Qed.

Lemma run_exile (i : Z) :
  0 <= i < n ->
  mv_exile (run n) i
  = let c := get_octant_rank (x (mv_bodies (run n) i)) in
    if c =? rank then -1 else c.
Proof.
  intros Hi.
  destruct (run_settled (i + 1) n i) as [-> ->]; try lia.
  rewrite run_succ by lia. now rewrite mv_exile_update_body, upd_same.
Qed.

Lemma run_send_count (k d : Z) :
  0 <= k -> 0 <= d -> mv_send_count (run k) d = count_dest (mv_exile (run k)) k d.
Proof.
  intros Hk Hd. pattern k. apply Z_count_ind; [| |assumption].
  - unfold run. rewrite for_nonpos by lia. reflexivity.
  - intros i Hi IH. rewrite count_dest_succ by assumption.
    rewrite (count_dest_ext (mv_exile (run (i + 1))) (mv_exile (run i))).
    2:{ intros j Hj. now destruct (run_settled i (i + 1) j) as [_ ->]; try lia. }
    rewrite <- IH. rewrite run_succ by assumption.
    rewrite mv_exile_update_body, upd_same. cbv zeta.
    rewrite mv_bodies_update_body, upd_same.
    unfold update_body. cbv zeta. rewrite upd_same.
    set (c := get_octant_rank _).
    pose proof (get_octant_rank_range
                  (x (integrate DT
                        (accumulate_force pow n sum
                           (mkMem (mv_bodies (run i)) ghosts) i)
                        (mv_bodies (run i) i)))) as Hc.
    fold c in Hc.
    destruct (c =? rank) eqn:E; cbn [negb mv_send_count].
    + replace (-1 =? d) with false by (symmetry; apply Z.eqb_neq; lia). lia.
    + destruct (Z.eq_dec c d) as [->|Hne].
      * rewrite upd_same, Z.eqb_refl. reflexivity.
      * rewrite upd_other by congruence.
        replace (c =? d) with false by (symmetry; now apply Z.eqb_neq). lia.
Qed.

Lemma update_bodies_exile (i : Z) :
  0 <= i < n ->
  let st := update_bodies pow rank DT n sum ghosts bs ex in
  mv_exile st i
  = let c := get_octant_rank (x (mv_bodies st i)) in
    if c =? rank then -1 else c.
Proof. intros Hi. apply run_exile. assumption. Qed.

Lemma update_bodies_send_count (d : Z) :
  0 <= d ->
  let st := update_bodies pow rank DT n sum ghosts bs ex in
  mv_send_count st d = count_dest (mv_exile st) n d.
Proof.
  intros Hd. cbv zeta. unfold update_bodies. fold (run n).
  destruct (Z_le_gt_dec 0 n) as [Hn|Hn].
  - now apply run_send_count.
  - unfold run. rewrite for_nonpos by lia. unfold count_dest.
    rewrite ints_nonpos by lia. reflexivity.
Qed.

(** C10: the bodies of a process are updated one after the other in
    place.  The body finally stored at index [i] is the integration of the
    start-of-step body [i] under the force accumulated over an array that
    holds, at every index below [i], the body as already updated in this
    step, and at every index from [i] on the start-of-step body; the ghosts
    are the ones received before the loop. *)
Theorem bodies_updated_in_place (i : Z) :
  0 <= i < n ->
  let st := update_bodies pow rank DT n sum ghosts bs ex in
  let seen := fun j => if j <? i then mv_bodies st j else bs j in
  mv_bodies st i
  = integrate DT (accumulate_force pow n sum (mkMem seen ghosts) i) (bs i).
Proof.
  intros Hi st seen. unfold st, update_bodies. fold (run n).
  rewrite run_body by assumption. f_equal.
  assert (forall j, mv_bodies (run i) j = seen j) as Hseen.
  { intros j. unfold seen, st, update_bodies. fold (run n).
    destruct (j <? i) eqn:E.
    - apply Z.ltb_lt in E. destruct (run_settled i n j) as [-> _]; try lia.
      reflexivity.
    - apply Z.ltb_ge in E. now destruct (run_untouched i j) as [-> _]; try lia. }
  apply accumulate_force_ext; intros; apply Hseen.
Qed.

End BodyLoop.

Lemma bodies_updated_in_place_witness :
  let bs := fun i => if i =? 0 then mkBody 1 (V3 1 1 1) zero3
                     else mkBody 1 (V3 3 1 1) zero3 in
  let ghosts := fun _ : Z => zero_body in
  let st := update_bodies pow_ref 7 2 2 0 ghosts bs zeros in
  let seen := fun j => if j <? 1 then mv_bodies st j else bs j in
  mv_bodies st 0 = mkBody 1 (V3 1.5 1 1) (V3 0.25 0 0)
  /\ mv_bodies st 1
     = integrate 2 (accumulate_force pow_ref 2 0 (mkMem seen ghosts) 1) (bs 1)
  /\ sq_separation pow_ref (seen 1) (seen 0) = 2.25%float
  /\ snapshot_update pow_ref 2 2 0 ghosts bs 1
     = mkBody 1 (V3 2.5 1 1) (V3 (-0.25) 0 0)
  /\ PrimFloat.ltb (c0 (x (mv_bodies st 1))) 2.5 = true.
Proof.
  split; [reflexivity|]. split.
  - apply (bodies_updated_in_place pow_ref 7 2 2 0). lia.
  - repeat split; reflexivity.
Defined.

(** ** A body alone *)






(** ** Filling the send buffer *)

Lemma flat_map_ext_in {A B : Type} (f g : A -> list B) (l : list A) :
  (forall a, In a l -> f a = g a) -> flat_map f l = flat_map g l.
Proof.
  induction l as [|a l IH]; intros H; [reflexivity|]. simpl.
  rewrite (H a) by now left. f_equal. apply IH. intros b Hb. apply H. now right.
Qed.

Lemma map_filter_comm {A B : Type} (f : A -> B) (p : B -> bool) (l : list A) :
  map f (filter (fun a => p (f a)) l) = filter p (map f l).
Proof.
  induction l as [|a l IH]; [reflexivity|]. simpl.
  destruct (p (f a)); simpl; now rewrite IH.
Qed.

Lemma export_fill_spec (n : Z) (bs : arr Body) (ex : arr Z) (sb : arr Body)
    (displ : arr Z) :
  (forall i, 0 <= i < n -> ex i < NP) ->
  (forall d e, 0 <= d < e -> e < NP -> displ d + count_dest ex n d <= displ e) ->
  forall d, 0 <= d < NP ->
    slice (fst (export_fill n bs ex sb displ)) (displ d) (count_dest ex n d)
    = map bs (filter (fun i => ex i =? d) (ints n)).
Proof.
  intros Hex Hdis.
  destruct (Z_le_gt_dec 0 n) as [Hn|Hn].
  2:{ intros d Hd. unfold count_dest. rewrite ints_nonpos by lia.
      now rewrite slice_nonpos by (simpl; lia). }
  assert (forall d, 0 <= d < NP ->
            snd (export_fill n bs ex sb displ) d = displ d + count_dest ex n d
            /\ slice (fst (export_fill n bs ex sb displ)) (displ d)
                 (count_dest ex n d)
               = map bs (filter (fun i => ex i =? d) (ints n))) as H.
  { unfold export_fill.
    apply (for_invariant
             (fun k sp =>
                forall d, 0 <= d < NP ->
                  snd sp d = displ d + count_dest ex k d
                  /\ slice (fst sp) (displ d) (count_dest ex k d)
                     = map bs (filter (fun i => ex i =? d) (ints k)))).
    - assumption.
    - intros d Hd. unfold count_dest. rewrite ints_nonpos by lia. simpl.
      split; [lia|]. now rewrite slice_nonpos by lia.
    - intros i sp Hi IH d Hd.
      rewrite count_dest_succ, filter_ints_succ by lia.
      destruct (ex i <? 0) eqn:Eneg.
      + apply Z.ltb_lt in Eneg.
        replace (ex i =? d) with false by (symmetry; apply Z.eqb_neq; lia).
        rewrite Z.add_0_r, app_nil_r. now apply IH.
      + apply Z.ltb_ge in Eneg. cbn [fst snd].
        assert (0 <= ex i < NP) as He by (split; [assumption|apply Hex; lia]).
        destruct (IH (ex i) He) as [IHp IHs].
        destruct (Z.eq_dec (ex i) d) as [Heq|Hne].
        * subst d. rewrite Z.eqb_refl, upd_same. split; [lia|].
          rewrite IHp. rewrite slice_upd_end by apply count_dest_nonneg.
          rewrite IHs, map_app. reflexivity.
        * replace (ex i =? d) with false by (symmetry; now apply Z.eqb_neq).
          rewrite Z.add_0_r, app_nil_r. rewrite upd_other by congruence.
          destruct (IH d Hd) as [IHp' IHs']. split; [assumption|].
          rewrite <- IHs'. apply slice_upd_outside. rewrite IHp.
          pose proof (count_dest_nonneg ex i (ex i)).
          pose proof (count_dest_nonneg ex i d).
          pose proof (count_dest_mono ex i n d ltac:(lia) ltac:(lia)).
          pose proof (count_dest_mono ex (i + 1) n (ex i) ltac:(lia) ltac:(lia))
            as Hm.
          rewrite count_dest_succ, Z.eqb_refl in Hm by lia.
          destruct (Z_lt_ge_dec d (ex i)) as [Hlt|Hge].
          -- right. pose proof (Hdis d (ex i) ltac:(lia) ltac:(lia)). lia.
          -- left. pose proof (Hdis (ex i) d ltac:(lia) ltac:(lia)). lia. }
  intros d Hd. now apply H.
Qed.

(** ** The variable-length exchange *)

Lemma peer_exchange_spec (out : arr outbox) (r : Z) (rb : arr Body) :
  (forall s, 0 <= s < NP -> 0 <= send_count (out s) r) ->
  fst (peer_exchange out r rb) = prefix_sum (fun s => send_count (out s) r) NP
  /\ slice (snd (peer_exchange out r rb)) 0 (fst (peer_exchange out r rb))
     = flat_map
         (fun s =>
            slice (out_buf (out s)) (send_displ (out s) r)
              (send_count (out s) r))
         (ints NP).
Proof.
  intros Hc. unfold peer_exchange. cbv zeta. cbn [fst snd].
  set (rc := MPI_Alltoall (fun s => send_count (out s)) r).
  change rc with (fun s => send_count (out s) r) at 1.
  destruct (displacements_spec rc) as [Hsum Hdis].
  split; [exact Hsum|]. rewrite Hsum.
  unfold MPI_Alltoallv.
  apply (for_invariant
           (fun k b =>
              slice b 0 (prefix_sum rc k)
              = flat_map
                  (fun s =>
                     slice (out_buf (out s)) (send_displ (out s) r)
                       (send_count (out s) r))
                  (ints k))).
  - unfold NP. lia.
  - rewrite prefix_sum_nonpos by lia. reflexivity.
  - intros k b Hk IH.
    rewrite prefix_sum_succ, ints_succ, flat_map_app by lia.
    assert (0 <= prefix_sum rc k) as Hp.
    { apply prefix_sum_nonneg. intros j Hj. apply Hc. lia. }
    rewrite (Hdis k Hk).
    rewrite slice_app; [|assumption|apply Hc; assumption].
    rewrite slice_copy_outside by lia. rewrite IH. f_equal.
    simpl. rewrite app_nil_r. apply slice_copy_inside.
Qed.

(** ** Keeping the retained bodies *)

Lemma keep_retained_spec (n : Z) (bs : arr Body) (ex : arr Z) (rb : arr Body)
    (sum : Z) :
  0 <= sum ->
  snd (keep_retained n bs ex rb sum)
  = sum + Z.of_nat (length (filter (fun j => ex j <? 0) (ints n)))
  /\ slice (fst (keep_retained n bs ex rb sum)) 0
       (snd (keep_retained n bs ex rb sum))
     = slice rb 0 sum ++ map bs (filter (fun j => ex j <? 0) (ints n)).
Proof.
  intros Hs. unfold keep_retained.
  destruct (Z_le_gt_dec 0 n) as [Hn|Hn].
  2:{ rewrite for_nonpos, ints_nonpos by lia. simpl.
      split; [lia|now rewrite app_nil_r]. }
  apply (for_invariant
           (fun k ri =>
              snd ri
              = sum + Z.of_nat (length (filter (fun j => ex j <? 0) (ints k)))
              /\ slice (fst ri) 0 (snd ri)
                 = slice rb 0 sum
                   ++ map bs (filter (fun j => ex j <? 0) (ints k)))).
  - assumption.
  - rewrite ints_nonpos by lia. simpl. split; [lia|now rewrite app_nil_r].
  - intros k ri Hk [Hi Hsl]. rewrite filter_ints_succ by lia.
    destruct (ex k <? 0).
    + cbn [fst snd]. rewrite length_app, map_app, app_assoc. simpl.
      split; [lia|]. rewrite <- Hsl.
      replace (snd ri) with (0 + snd ri) at 1 by lia.
      apply slice_upd_end. lia.
    + rewrite app_nil_r. now split.
Qed.

(** ** One migration round *)

Section Migration.

Variable pow : float -> float -> float.

Lemma exile_flag_eqb (c rank d : Z) :
  0 <= d ->
  ((if c =? rank then -1 else c) =? d) = negb (c =? rank) && (c =? d).
Proof.
  intros Hd. destruct (c =? rank); cbn [negb andb]; [|reflexivity].
  apply Z.eqb_neq. lia.
Qed.

Lemma exile_flag_ltb (c rank : Z) :
  0 <= c -> ((if c =? rank then -1 else c) <? 0) = (c =? rank).
Proof.
  intros Hc. destruct (c =? rank); [reflexivity|]. apply Z.ltb_ge. lia.
Qed.

Lemma exported_bodies (rank : Z) (DT : float) (n sum : Z)
    (ghosts bs : arr Body) (ex : arr Z) (d : Z) :
  0 <= d ->
  let st := update_bodies pow rank DT n sum ghosts bs ex in
  map (mv_bodies st) (filter (fun i => mv_exile st i =? d) (ints n))
  = if rank =? d then []
    else filter (fun b => get_octant_rank (x b) =? d) (moved_store n st).
Proof.
  intros Hd st. unfold moved_store, slice. simpl.
  rewrite <- map_filter_comm.
  assert (forall i, 0 <= i < n ->
            (mv_exile st i =? d)
            = negb (get_octant_rank (x (mv_bodies st i)) =? rank)
              && (get_octant_rank (x (mv_bodies st i)) =? d)) as Hflag.
  { intros i Hi. unfold st. rewrite update_bodies_exile by assumption.
    cbv zeta. now apply exile_flag_eqb. }
  rewrite (filter_ints_ext _ _ n Hflag).
  destruct (rank =? d) eqn:E.
  - apply Z.eqb_eq in E. subst d.
    rewrite (filter_ints_ext _ (fun _ => false)).
    + clear. induction (ints n); auto.
    + intros i Hi. now destruct (_ =? rank).
  - apply Z.eqb_neq in E. f_equal. apply filter_ints_ext. intros i Hi.
    destruct (_ =? rank) eqn:E1; [|reflexivity].
    apply Z.eqb_eq in E1. rewrite E1. simpl. symmetry. now apply Z.eqb_neq.
Qed.

Lemma retained_bodies (rank : Z) (DT : float) (n sum : Z)
    (ghosts bs : arr Body) (ex : arr Z) :
  let st := update_bodies pow rank DT n sum ghosts bs ex in
  map (mv_bodies st) (filter (fun i => mv_exile st i <? 0) (ints n))
  = filter (fun b => get_octant_rank (x b) =? rank) (moved_store n st).
Proof.
  intros st. unfold moved_store, slice. simpl.
  rewrite <- map_filter_comm. f_equal. apply filter_ints_ext. intros i Hi.
  unfold st. rewrite update_bodies_exile by assumption. cbv zeta.
  apply exile_flag_ltb. apply get_octant_rank_range.
Qed.

Lemma export_outbox_spec (rank : Z) (DT : float) (n sum : Z)
    (ghosts bs : arr Body) (ex : arr Z) (sb : arr Body) (d : Z) :
  0 <= d < NP ->
  let st := update_bodies pow rank DT n sum ghosts bs ex in
  let o := export_outbox n st sb in
  0 <= send_count o d
  /\ slice (out_buf o) (send_displ o d) (send_count o d)
     = if rank =? d then []
       else filter (fun b => get_octant_rank (x b) =? d) (moved_store n st).
Proof.
  intros Hd st o. unfold o, export_outbox. cbn [send_count send_displ out_buf].
  assert (forall e, 0 <= e -> mv_send_count st e = count_dest (mv_exile st) n e)
    as Hcnt by (intros e He; now apply update_bodies_send_count).
  rewrite (Hcnt d) by lia. split; [apply count_dest_nonneg|].
  pose proof (exported_bodies rank DT n sum ghosts bs ex d ltac:(lia)) as He.
  cbv zeta in He. fold st in He. rewrite <- He. clear He.
  destruct (displacements_spec (mv_send_count st)) as [_ Hdis].
  apply export_fill_spec; [| |assumption].
  - intros i Hi. unfold st. rewrite update_bodies_exile by assumption.
    cbv zeta. fold st.
    pose proof (get_octant_rank_range (x (mv_bodies st i))) as Hr.
    destruct (get_octant_rank (x (mv_bodies st i)) =? rank);
      unfold NP in *; lia.
  - intros a b Ha Hb. rewrite !Hdis by lia. rewrite <- Hcnt by lia.
    rewrite <- prefix_sum_succ by lia. apply prefix_sum_mono; try lia.
    intros j Hj. rewrite Hcnt by lia. apply count_dest_nonneg.
Qed.

Lemma after_forces_eq (DT : float) (w : world) (r : Z) :
  after_forces pow DT w r
  = update_bodies pow r DT (n_body (w r)) (fst (ghost_exchange pow w r))
      (snd (ghost_exchange pow w r)) (bodies (w r)) (exile (w r)).
Proof. unfold after_forces. now rewrite per_rank_eq. Qed.

(** What a process owns after the round: the bodies the others sent it,
    source by source, then its own bodies that stayed. *)
Lemma migrate_store (DT : float) (w : world) (r : Z) :
  0 <= r < NP ->
  n_body (migrate pow DT w r)
  = Z.of_nat (length (arrivals pow DT w r ++ stayers pow DT w r))
  /\ store (migrate pow DT w r) = arrivals pow DT w r ++ stayers pow DT w r.
Proof.
  intros Hr. unfold migrate. cbv zeta. rewrite per_rank_eq.
  unfold store. cbn [n_body bodies].
  set (out := per_rank _).
  set (got := peer_exchange out r _).
  set (mv := after_forces pow DT w).
  assert (forall s, 0 <= s < NP ->
            0 <= send_count (out s) r
            /\ slice (out_buf (out s)) (send_displ (out s) r)
                 (send_count (out s) r)
               = if s =? r then []
                 else filter (fun b => get_octant_rank (x b) =? r)
                        (moved_store (n_body (w s)) (mv s))) as Hout.
  { intros s Hs. unfold out. rewrite per_rank_eq. unfold mv.
    rewrite after_forces_eq. now apply export_outbox_spec. }
  destruct (peer_exchange_spec out r (snd (ghost_exchange pow w r)))
    as [Hsum Hrecv].
  { intros s Hs. now apply Hout. }
  fold got in Hsum, Hrecv.
  assert (0 <= fst got) as Hnn.
  { rewrite Hsum. apply prefix_sum_nonneg. intros s Hs. now apply Hout. }
  destruct (keep_retained_spec (n_body (w r)) (mv_bodies (mv r))
              (mv_exile (mv r)) (snd got) (fst got) Hnn) as [Hi Hkept].
  set (kept := keep_retained _ _ _ _ _) in *.
  assert (slice (fst kept) 0 (snd kept)
          = arrivals pow DT w r ++ stayers pow DT w r) as Hstore.
  { rewrite Hkept, Hrecv. f_equal.
    - unfold arrivals. apply flat_map_ext_in. intros s Hs.
      apply in_ints in Hs. now apply Hout.
    - unfold stayers, mv. rewrite after_forces_eq. apply retained_bodies. }
  split.
  - rewrite <- Hstore. symmetry. apply length_slice. rewrite Hi. lia.
  - rewrite slice_copy_inside. exact Hstore.
Qed.

End Migration.

(** ** Rearrangements of concatenated lists *)

Lemma flat_map_nil {A B : Type} (l : list A) :
  flat_map (fun _ : A => @nil B) l = [].
Proof. induction l; auto. Qed.

Lemma Permutation_flat_map {A B : Type} (f g : A -> list B) (l : list A) :
  (forall a, In a l -> Permutation (f a) (g a)) ->
  Permutation (flat_map f l) (flat_map g l).
Proof.
  induction l as [|a l IH]; intros H; [constructor|]. simpl.
  apply Permutation_app; [apply H; now left|].
  apply IH. intros b Hb. apply H. now right.
Qed.

Lemma flat_map_app_pointwise {A B : Type} (f g : A -> list B) (l : list A) :
  Permutation (flat_map (fun a => f a ++ g a) l) (flat_map f l ++ flat_map g l).
Proof.
  induction l as [|a l IH]; [constructor|]. simpl.
  rewrite IH. rewrite <- !app_assoc. apply Permutation_app_head.
  rewrite !app_assoc. apply Permutation_app_tail. apply Permutation_app_comm.
Qed.

Lemma flat_map_swap {A B C : Type} (g : A -> B -> list C) (la : list A)
    (lb : list B) :
  Permutation (flat_map (fun a => flat_map (g a) lb) la)
    (flat_map (fun b => flat_map (fun a => g a b) la) lb).
Proof.
  induction la as [|a la IH]; simpl.
  - induction lb; simpl; auto.
  - rewrite IH. symmetry. apply flat_map_app_pointwise.
Qed.

(** Setting element [r] of a concatenation aside and appending it last. *)
Lemma flat_map_pull (B : Type) (f : Z -> list B) (l : list Z) (r : Z) :
  NoDup l -> In r l ->
  Permutation (flat_map (fun s => if s =? r then [] else f s) l ++ f r)
    (flat_map f l).
Proof.
  induction l as [|a l IH]; intros Hnd Hin; [contradiction|].
  inversion Hnd as [|? ? Hnotin Hnd']; subst. simpl.
  destruct (Z.eqb_spec a r) as [->|Hne].
  - simpl. rewrite (flat_map_ext_in _ f).
    + apply Permutation_app_comm.
    + intros s Hs. destruct (Z.eqb_spec s r); [congruence|reflexivity].
  - rewrite <- app_assoc. apply Permutation_app_head. apply IH; [assumption|].
    destruct Hin; [congruence|assumption].
Qed.

(** Sorting a list of bodies by octant keeps every body exactly once. *)
Lemma partition_by_octant (l : list Body) :
  Permutation
    (flat_map (fun r => filter (fun b => get_octant_rank (x b) =? r) l)
       (ints NP))
    l.
Proof.
  induction l as [|b l IH]; [exact (perm_nil Body)|]. simpl filter.
  set (c := get_octant_rank (x b)).
  assert (forall R : list Z, NoDup R -> In c R ->
            Permutation
              (flat_map
                 (fun r =>
                    if c =? r
                    then b :: filter (fun b => get_octant_rank (x b) =? r) l
                    else filter (fun b => get_octant_rank (x b) =? r) l) R)
              (b :: flat_map
                      (fun r => filter (fun b => get_octant_rank (x b) =? r) l)
                      R)) as Hins.
  { induction R as [|a R IHR]; intros Hnd Hin; [contradiction|].
    inversion Hnd as [|? ? Hnotin Hnd']; subst. simpl.
    destruct (Z.eqb_spec c a) as [Heq|Hne].
    - simpl. apply perm_skip. apply Permutation_app_head.
      rewrite (flat_map_ext_in _
                 (fun r => filter (fun b => get_octant_rank (x b) =? r) l));
        [reflexivity|].
      intros s Hs. destruct (Z.eqb_spec c s); [congruence|reflexivity].
    - rewrite IHR; [|assumption|destruct Hin; [congruence|assumption]].
      symmetry. apply Permutation_middle. }
  rewrite Hins.
  - now apply perm_skip.
  - apply NoDup_ints.
  - apply in_ints. apply get_octant_rank_range.
Qed.

Lemma prefix_sum_lengths {B : Type} (c : arr Z) (f : Z -> list B) (k : Z) :
  (forall j, 0 <= j < k -> c j = Z.of_nat (length (f j))) ->
  prefix_sum c k = Z.of_nat (length (flat_map f (ints k))).
Proof.
  destruct (Z_le_gt_dec 0 k) as [Hk|Hk].
  - pattern k. apply Z_count_ind; [| |assumption].
    + intros _. reflexivity.
    + intros j Hj IH Hc. rewrite prefix_sum_succ, ints_succ by assumption.
      rewrite flat_map_app, length_app. simpl. rewrite app_nil_r.
      rewrite IH by (intros i Hi; apply Hc; lia). rewrite Hc by lia. lia.
  - intros _. now rewrite prefix_sum_nonpos, ints_nonpos by lia.
Qed.

(** ** Ownership and conservation across a time step *)

Section Ownership.

Variable pow : float -> float -> float.

Lemma all_bodies_timestep (DT : float) (w : world) :
  all_bodies (timestep pow DT w)
  = flat_map (fun r => arrivals pow DT w r ++ stayers pow DT w r) (ints NP).
Proof.
  unfold all_bodies, timestep. apply flat_map_ext_in. intros r Hr.
  apply in_ints in Hr. now apply migrate_store.
Qed.

Lemma timestep_permutation (DT : float) (w : world) :
  Permutation (all_bodies (timestep pow DT w)) (all_moved pow DT w).
Proof.
  rewrite all_bodies_timestep. unfold all_moved.
  set (L := fun s => moved_store (n_body (w s)) (after_forces pow DT w s)).
  transitivity
    (flat_map
       (fun r =>
          flat_map (fun s => filter (fun b => get_octant_rank (x b) =? r) (L s))
            (ints NP))
       (ints NP)).
  - apply Permutation_flat_map. intros r Hr. unfold arrivals, stayers. fold L.
    apply (flat_map_pull Body
             (fun s => filter (fun b => get_octant_rank (x b) =? r) (L s))).
    + apply NoDup_ints.
    + assumption.
  - rewrite (flat_map_swap
               (fun r s => filter (fun b => get_octant_rank (x b) =? r) (L s))).
    apply Permutation_flat_map. intros s _. apply partition_by_octant.
Qed.

Lemma n_body_timestep (DT : float) (w : world) (r : Z) :
  0 <= r < NP ->
  n_body (timestep pow DT w r)
  = Z.of_nat (length (store (timestep pow DT w r))).
Proof.
  intros Hr. unfold timestep.
  destruct (migrate_store pow DT w r Hr) as [-> ->]. reflexivity.
Qed.

Lemma population_timestep (DT : float) (w : world) :
  (forall r, 0 <= r < NP -> 0 <= n_body (w r)) ->
  population (timestep pow DT w) = population w.
Proof.
  intros Hw. unfold population.
  rewrite (prefix_sum_lengths _ (fun r => store (timestep pow DT w r)))
    by (intros r Hr; now apply n_body_timestep).
  fold (all_bodies (timestep pow DT w)).
  rewrite (Permutation_length (timestep_permutation DT w)).
  unfold all_moved. symmetry. apply prefix_sum_lengths.
  intros r Hr. unfold moved_store. symmetry. apply length_slice. now apply Hw.
Qed.

(** C2: after a time step, every body in the store of process [r] has a
    position that the partitioner assigns to octant [r]. *)
Theorem migrated_bodies_are_home (DT : float) (w : world) (r : Z) (b : Body) :
  0 <= r < NP ->
  In b (store (timestep pow DT w r)) ->
  get_octant_rank (x b) = r.
Proof.
  intros Hr Hin. unfold timestep in Hin.
  destruct (migrate_store pow DT w r Hr) as [_ Hst]. rewrite Hst in Hin.
  apply in_app_or in Hin. destruct Hin as [Hin|Hin].
  - unfold arrivals in Hin. apply in_flat_map in Hin.
    destruct Hin as [s [_ Hin]]. destruct (s =? r); [contradiction|].
    apply filter_In in Hin. now apply Z.eqb_eq.
  - unfold stayers in Hin. apply filter_In in Hin. now apply Z.eqb_eq.
Qed.

(** C3: a time step keeps the bodies as a multiset: the stores after the
    migration, taken together, are a rearrangement of the integrated bodies
    before it; the store of process [r] is what the other processes hold
    for octant [r], followed by what process [r] holds for its own octant;
    and the total population is the same after one step and after any
    number of steps. *)
Theorem migration_preserves_bodies (DT : float) (w : world) :
  (forall r, 0 <= r < NP -> 0 <= n_body (w r)) ->
  Permutation (all_bodies (timestep pow DT w)) (all_moved pow DT w)
  /\ (forall r, 0 <= r < NP ->
        store (timestep pow DT w r)
        = arrivals pow DT w r ++ stayers pow DT w r)
  /\ population (timestep pow DT w) = population w
  /\ (forall K, population (simulate pow DT K w) = population w).
Proof.
  intros Hw. split; [apply timestep_permutation|].
  split; [intros r Hr; now apply migrate_store|].
  split; [now apply population_timestep|].
  intros K. unfold simulate.
  destruct (Z_le_gt_dec 0 K) as [HK|HK]; [|now rewrite for_nonpos by lia].
  apply (for_invariant
           (fun _ w' =>
              (forall r, 0 <= r < NP -> 0 <= n_body (w' r))
              /\ population w' = population w)); try assumption.
  - now split.
  - intros i w' Hi [Hw' Hp]. split.
    + intros r Hr. rewrite n_body_timestep by assumption. lia.
    + rewrite population_timestep by assumption. exact Hp.
Qed.

End Ownership.

Lemma example_world_populated (r : Z) : 0 <= n_body (example_world r).
Proof.
  unfold example_world. destruct (r =? 7); [simpl; lia|].
  destruct (r =? 6); simpl; lia.
Qed.

Lemma migrated_bodies_are_home_witness :
  store (timestep pow_ref 1 example_world 6)
  = [ mkBody 1 (V3 (-0.75) 1 1) (V3 (-1.75) 0 0);
      mkBody 2 (V3 (-0.81944444444444442) 1 1) (V3 0.18055555555555555 0 0) ]
  /\ get_octant_rank (x (mkBody 1 (V3 (-0.75) 1 1) (V3 (-1.75) 0 0))) = 6.
Proof.
  split; [vm_compute; reflexivity|].
  apply (migrated_bodies_are_home pow_ref 1 example_world 6).
  - unfold NP. lia.
  - vm_compute. left. reflexivity.
Defined.

Lemma migration_preserves_bodies_witness :
  Permutation (all_bodies (timestep pow_ref 1 example_world))
    (all_moved pow_ref 1 example_world)
  /\ population example_world = 3
  /\ population (timestep pow_ref 1 example_world) = 3
  /\ population (simulate pow_ref 1 3 example_world) = 3.
Proof.
  destruct (migration_preserves_bodies pow_ref 1 example_world
              (fun r _ => example_world_populated r)) as (H1 & _ & H3 & H4).
  split; [exact H1|]. split; [reflexivity|].
  split; [rewrite H3; reflexivity|rewrite H4; reflexivity].
Defined.

(** ** Initial load and distribution *)

Lemma in_range_succ (j k : Z) :
  0 <= k ->
  (0 <=? j) && (j <? k + 1) = ((0 <=? j) && (j <? k)) || (j =? k).
Proof.
  intros Hk.
  destruct (0 <=? j) eqn:E0; destruct (j <? k + 1) eqn:E1;
    destruct (j <? k) eqn:E2; destruct (j =? k) eqn:E3; simpl; try reflexivity;
    repeat match goal with
      | H : (_ <=? _) = true |- _ => apply Z.leb_le in H
      | H : (_ <=? _) = false |- _ => apply Z.leb_gt in H
      | H : (_ <? _) = true |- _ => apply Z.ltb_lt in H
      | H : (_ <? _) = false |- _ => apply Z.ltb_ge in H
      | H : (_ =? _) = true |- _ => apply Z.eqb_eq in H
      | H : (_ =? _) = false |- _ => apply Z.eqb_neq in H
      end; lia.
Qed.

(** A loop that rewrites cell [i] from its own old value. *)
Lemma for_upd_each {A : Type} (N : Z) (g : Z -> A -> A) (a : arr A) (j : Z) :
  for_ N (fun i a => upd a i (g i (a i))) a j
  = if (0 <=? j) && (j <? N) then g j (a j) else a j.
Proof.
  destruct (Z_le_gt_dec 0 N) as [HN|HN].
  - revert j.
    apply (for_invariant
             (fun k a' =>
                forall j, a' j = if (0 <=? j) && (j <? k) then g j (a j)
                                 else a j)); [assumption| |].
    + intros j. destruct (0 <=? j) eqn:E0; destruct (j <? 0) eqn:E1; simpl;
        try reflexivity.
      apply Z.leb_le in E0. apply Z.ltb_lt in E1. lia.
    + intros i a' Hi IH j. rewrite in_range_succ by lia.
      destruct (Z.eqb_spec j i) as [->|Hne].
      * rewrite upd_same, orb_true_r. rewrite IH.
        replace (i <? i) with false by (symmetry; apply Z.ltb_ge; lia).
        now rewrite andb_false_r.
      * rewrite upd_other by assumption. rewrite orb_false_r. apply IH.
  - rewrite for_nonpos by lia.
    destruct (0 <=? j) eqn:E0; destruct (j <? N) eqn:E1; simpl;
      try reflexivity.
    apply Z.leb_le in E0. apply Z.ltb_lt in E1. lia.
Qed.

Lemma place_is_export_fill (n : Z) (bs sb : arr Body) (displ : arr Z) :
  for_ n
    (fun i bp =>
       (upd (fst bp) (snd bp (get_octant_rank (x (bs i)))) (bs i),
        upd (snd bp) (get_octant_rank (x (bs i)))
          (snd bp (get_octant_rank (x (bs i))) + 1)))
    (sb, displ)
  = export_fill n bs (fun i => get_octant_rank (x (bs i))) sb displ.
Proof.
  unfold export_fill. apply for_ext. intros i t Hi. cbv zeta.
  pose proof (get_octant_rank_range (x (bs i))) as Hr.
  replace (get_octant_rank (x (bs i)) <? 0) with false
    by (symmetry; apply Z.ltb_ge; lia).
  reflexivity.
Qed.

Section Load.

Variables (inp : input) (sorted bds : arr Body).

Let N := in_N inp.
Let octant_of (i : Z) : Z := get_octant_rank (in_x inp i).
Let body_of (i : Z) : Body := mkBody (in_mass inp i) (in_x inp i) (in_v inp i).

Lemma readdata_counts (d : Z) :
  ld_send_count (readdata inp sorted bds) d = count_dest octant_of N d.
Proof.
  unfold readdata. cbn [ld_send_count]. fold N.
  set (b1 := for_ N _ bds).
  destruct (Z_le_gt_dec 0 N) as [HN|HN].
  - revert d.
    apply (for_invariant
             (fun k bc => forall d, snd bc d = count_dest octant_of k d));
      [assumption| |].
    + intros d. reflexivity.
    + intros i bc Hi IH d. cbn [fst snd]. rewrite upd_same. cbn [x].
      rewrite count_dest_succ by lia. fold (octant_of i).
      destruct (Z.eqb_spec (octant_of i) d) as [->|Hne].
      * rewrite upd_same. now rewrite IH.
      * rewrite upd_other by congruence. rewrite IH. lia.
  - rewrite for_nonpos by lia. unfold count_dest. now rewrite ints_nonpos by lia.
Qed.

Lemma readdata_bds (j : Z) :
  0 <= j < N ->
  for_ N
    (fun i b => upd b i (mkBody (mass (b i)) (x (b i)) (in_v inp i)))
    (fst (for_ N
            (fun i bc =>
               let b :=
                 upd (fst bc) i
                   (mkBody (mass (fst bc i)) (in_x inp i) (v (fst bc i))) in
               let i_oct := get_octant_rank (x (b i)) in
               (b, upd (snd bc) i_oct (snd bc i_oct + 1)))
            (for_ N
               (fun i b => upd b i (mkBody (in_mass inp i) (x (b i)) (v (b i))))
               bds,
             zeros)))
    j
  = body_of j.
Proof.
  intros Hj.
  assert ((0 <=? j) && (j <? N) = true) as Hin.
  { apply andb_true_intro. split; [apply Z.leb_le|apply Z.ltb_lt]; lia. }
  rewrite (for_upd_each N (fun i b => mkBody (mass b) (x b) (in_v inp i))).
  rewrite Hin.
  set (b1 := for_ N _ bds).
  assert (fst (for_ N
                 (fun i bc =>
                    let b :=
                      upd (fst bc) i
                        (mkBody (mass (fst bc i)) (in_x inp i) (v (fst bc i))) in
                    let i_oct := get_octant_rank (x (b i)) in
                    (b, upd (snd bc) i_oct (snd bc i_oct + 1)))
                 (b1, zeros)) j
          = mkBody (mass (b1 j)) (in_x inp j) (v (b1 j))) as H2.
  { assert (forall k, 0 <= k ->
              forall i, fst (for_ k
                 (fun i bc =>
                    let b :=
                      upd (fst bc) i
                        (mkBody (mass (fst bc i)) (in_x inp i) (v (fst bc i))) in
                    let i_oct := get_octant_rank (x (b i)) in
                    (b, upd (snd bc) i_oct (snd bc i_oct + 1)))
                 (b1, zeros)) i
              = if (0 <=? i) && (i <? k)
                then mkBody (mass (b1 i)) (in_x inp i) (v (b1 i)) else b1 i)
      as Hall.
    { intros k Hk. pattern k. apply Z_count_ind; [| |assumption].
      - intros i. rewrite for_nonpos by lia. simpl.
        destruct (0 <=? i) eqn:E0; destruct (i <? 0) eqn:E1; simpl;
          try reflexivity.
        apply Z.leb_le in E0. apply Z.ltb_lt in E1. lia.
      - intros m Hm IH i. rewrite for_succ by assumption. cbn [fst].
        rewrite in_range_succ by lia.
        destruct (Z.eqb_spec i m) as [->|Hne].
        + rewrite upd_same, orb_true_r. rewrite IH.
          replace (m <? m) with false by (symmetry; apply Z.ltb_ge; lia).
          now rewrite andb_false_r.
        + rewrite upd_other by assumption. rewrite orb_false_r. apply IH. }
    rewrite Hall by lia. now rewrite Hin. }
  rewrite H2. unfold b1.
  rewrite (for_upd_each N (fun i b => mkBody (in_mass inp i) (x b) (v b))).
  rewrite Hin. reflexivity.
Qed.

Lemma filter_length_map {A B : Type} (f : A -> B) (p : B -> bool) (l : list A) :
  length (filter p (map f l)) = length (filter (fun a => p (f a)) l).
Proof. now rewrite <- map_filter_comm, length_map. Qed.

Lemma readdata_segments (d : Z) :
  0 <= d < NP ->
  ld_send_count (readdata inp sorted bds) d
  = Z.of_nat
      (length
         (filter (fun b => get_octant_rank (x b) =? d) (input_bodies inp)))
  /\ ld_send_displ (readdata inp sorted bds) d
     = prefix_sum (ld_send_count (readdata inp sorted bds)) d
  /\ slice (ld_bodies (readdata inp sorted bds))
       (ld_send_displ (readdata inp sorted bds) d)
       (ld_send_count (readdata inp sorted bds) d)
     = filter (fun b => get_octant_rank (x b) =? d) (input_bodies inp).
Proof.
  intros Hd.
  assert (forall e, ld_send_count (readdata inp sorted bds) e
                    = count_dest octant_of N e) as Hcnt
    by apply readdata_counts.
  assert (forall e, 0 <= e < NP ->
            ld_send_displ (readdata inp sorted bds) e
            = prefix_sum (ld_send_count (readdata inp sorted bds)) e) as Hdis.
  { intros e He. unfold readdata at 1. cbn [ld_send_displ].
    now apply displacements_spec. }
  split; [|split].
  - rewrite Hcnt. unfold count_dest, input_bodies.
    now rewrite filter_length_map.
  - now apply Hdis.
  - rewrite Hcnt. unfold readdata at 1. cbn [ld_bodies]. cbv zeta. fold N.
    set (b3 := for_ N
                 (fun i b => upd b i (mkBody (mass (b i)) (x (b i)) (in_v inp i)))
                 _).
    set (dsp := fst (displacements _)).
    assert (forall j, 0 <= j < N -> b3 j = body_of j) as Hb3
      by (intros j Hj; unfold b3; now apply readdata_bds).
    rewrite place_is_export_fill.
    assert (forall e, count_dest (fun i => get_octant_rank (x (b3 i))) N e
                      = count_dest octant_of N e) as Hce.
    { intros e. apply count_dest_ext. intros i Hi. now rewrite Hb3. }
    assert (forall e, 0 <= e < NP ->
              dsp e = prefix_sum (ld_send_count (readdata inp sorted bds)) e)
      as Hdsp by (intros e He; now apply Hdis).
    rewrite <- Hce. rewrite export_fill_spec; [| | |assumption].
    + rewrite (filter_ints_ext _
                 (fun i => get_octant_rank (x (body_of i)) =? d))
        by (intros i Hi; now rewrite Hb3).
      rewrite (map_ext_in b3 body_of)
        by (intros i Hi; apply filter_In in Hi; destruct Hi as [Hi _];
            apply in_ints in Hi; now apply Hb3).
      unfold input_bodies. fold N.
      apply (map_filter_comm body_of
               (fun b => get_octant_rank (x b) =? d)).
    + intros i Hi. apply get_octant_rank_range.
    + intros a e Ha He. rewrite !Hdsp by lia. rewrite Hce, <- Hcnt.
      rewrite <- prefix_sum_succ by lia. apply prefix_sum_mono; try lia.
      intros j Hj. rewrite Hcnt. apply count_dest_nonneg.
Qed.

End Load.

Lemma distribute_store (inp : input) (boot : world) (bds : arr Body) (r : Z) :
  0 <= r < NP ->
  n_body (distribute inp boot bds r)
  = Z.of_nat
      (length
         (filter (fun b => get_octant_rank (x b) =? r) (input_bodies inp)))
  /\ store (distribute inp boot bds r)
     = filter (fun b => get_octant_rank (x b) =? r) (input_bodies inp).
Proof.
  intros Hr. unfold distribute. cbv zeta. rewrite per_rank_eq.
  unfold store. cbn [n_body bodies].
  rewrite !slice_copy_inside.
  split; now apply readdata_segments.
Qed.

Lemma all_bodies_distribute (inp : input) (boot : world) (bds : arr Body) :
  all_bodies (distribute inp boot bds)
  = flat_map
      (fun r => filter (fun b => get_octant_rank (x b) =? r) (input_bodies inp))
      (ints NP).
Proof.
  unfold all_bodies. apply flat_map_ext_in. intros r Hr. apply in_ints in Hr.
  now apply distribute_store.
Qed.

Lemma population_distribute (inp : input) (boot : world) (bds : arr Body) :
  0 <= in_N inp -> population (distribute inp boot bds) = in_N inp.
Proof.
  intros HN. unfold population.
  rewrite (prefix_sum_lengths _ (fun r => store (distribute inp boot bds r))).
  - fold (all_bodies (distribute inp boot bds)).
    rewrite all_bodies_distribute.
    rewrite (Permutation_length (partition_by_octant (input_bodies inp))).
    unfold input_bodies. rewrite length_map. now apply length_ints.
  - intros r Hr. destruct (distribute_store inp boot bds r Hr) as [-> ->].
    reflexivity.
Qed.

(** X1: [readdata] places the bodies of the input by octant: the segment of
    octant [d] in the output array starts at the sum of the counts of the
    octants below [d], and holds exactly the input bodies whose position is
    in octant [d], in reading order; its count is their number. *)
Theorem readdata_sorts_by_octant (inp : input) (sorted bds : arr Body) (d : Z) :
  0 <= d < NP ->
  let ld := readdata inp sorted bds in
  ld_send_count ld d
  = Z.of_nat
      (length
         (filter (fun b => get_octant_rank (x b) =? d) (input_bodies inp)))
  /\ ld_send_displ ld d = prefix_sum (ld_send_count ld) d
  /\ slice (ld_bodies ld) (ld_send_displ ld d) (ld_send_count ld d)
     = filter (fun b => get_octant_rank (x b) =? d) (input_bodies inp).
Proof. intros Hd. now apply readdata_segments. Qed.

Lemma readdata_sorts_by_octant_witness :
  let ld := readdata example_input (fun _ => zero_body) (fun _ => zero_body) in
  ld_send_displ ld 7 = 1
  /\ slice (ld_bodies ld) (ld_send_displ ld 7) (ld_send_count ld 7)
     = filter (fun b => get_octant_rank (x b) =? 7) (input_bodies example_input)
  /\ slice (ld_bodies ld) 0 3
     = [ mkBody 2 (V3 (-1) 1 1) zero3;
         mkBody 1 (V3 1 1 1) (V3 (-2) 0 0);
         mkBody 1 (V3 2 1 1) zero3 ].
Proof.
  split; [reflexivity|]. split; [|reflexivity].
  apply (readdata_sorts_by_octant example_input (fun _ => zero_body)
           (fun _ => zero_body) 7).
  unfold NP. lia.
Defined.

(** X2: after the initial distribution, process [r] owns exactly the input
    bodies whose position is in octant [r], in reading order; the eight
    stores together are a rearrangement of the input; and for N >= 0 the
    populations sum to N. *)
Theorem initial_distribution_by_octant (inp : input) (boot : world)
    (bds : arr Body) :
  (forall r, 0 <= r < NP ->
     store (distribute inp boot bds r)
     = filter (fun b => get_octant_rank (x b) =? r) (input_bodies inp))
  /\ Permutation (all_bodies (distribute inp boot bds)) (input_bodies inp)
  /\ (0 <= in_N inp -> population (distribute inp boot bds) = in_N inp).
Proof.
  split; [intros r Hr; now apply distribute_store|]. split.
  - rewrite all_bodies_distribute. apply partition_by_octant.
  - apply population_distribute.
Qed.

Lemma initial_distribution_by_octant_witness :
  store (distribute example_input example_world (fun _ => zero_body) 6)
  = [ mkBody 2 (V3 (-1) 1 1) zero3 ]
  /\ population (distribute example_input example_world (fun _ => zero_body))
     = 3.
Proof.
  split; [reflexivity|].
  apply (initial_distribution_by_octant example_input example_world
           (fun _ => zero_body)).
  simpl. lia.
Defined.

(** ** The run from the initial distribution *)

Section Run.

Variable pow : float -> float -> float.

Lemma store_timestep_home (DT : float) (w : world) (r : Z) (b : Body) :
  0 <= r < NP -> In b (store (timestep pow DT w r)) -> get_octant_rank (x b) = r.
Proof.
  intros Hr Hin. unfold timestep in Hin.
  destruct (migrate_store pow DT w r Hr) as [_ Hst]. rewrite Hst in Hin.
  apply in_app_or in Hin. destruct Hin as [Hin|Hin].
  - unfold arrivals in Hin. apply in_flat_map in Hin.
    destruct Hin as [s [_ Hin]]. destruct (s =? r); [contradiction|].
    apply filter_In in Hin. now apply Z.eqb_eq.
  - unfold stayers in Hin. apply filter_In in Hin. now apply Z.eqb_eq.
Qed.

Lemma simulate_succ (DT : float) (K : Z) (w : world) :
  0 <= K ->
  simulate pow DT (K + 1) w = timestep pow DT (simulate pow DT K w).
Proof. intros HK. unfold simulate. now rewrite for_succ. Qed.

Lemma population_simulate (DT : float) (K : Z) (w : world) :
  (forall r, 0 <= r < NP -> 0 <= n_body (w r)) ->
  (forall r, 0 <= r < NP -> 0 <= n_body (simulate pow DT K w r))
  /\ population (simulate pow DT K w) = population w.
Proof.
  intros Hw. unfold simulate.
  destruct (Z_le_gt_dec 0 K) as [HK|HK];
    [|rewrite for_nonpos by lia; now split].
  apply (for_invariant
           (fun _ w' =>
              (forall r, 0 <= r < NP -> 0 <= n_body (w' r))
              /\ population w' = population w)); try assumption.
  - now split.
  - intros i w' Hi [Hw' Hp]. split.
    + intros r Hr. rewrite n_body_timestep by assumption. lia.
    + rewrite population_timestep by assumption. exact Hp.
Qed.

Lemma n_body_distribute_nonneg (inp : input) (boot : world) (bds : arr Body)
    (r : Z) :
  0 <= r < NP -> 0 <= n_body (distribute inp boot bds r).
Proof.
  intros Hr. destruct (distribute_store inp boot bds r Hr) as [-> _]. lia.
Qed.

Lemma run_home (inp : input) (boot : world) (bds : arr Body) (t r : Z)
    (b : Body) :
  0 <= r < NP ->
  In b (store (simulate pow (in_DT inp) t (distribute inp boot bds) r)) ->
  get_octant_rank (x b) = r.
Proof.
  intros Hr Hin.
  destruct (Z_le_gt_dec t 0) as [Ht|Ht].
  - unfold simulate in Hin. rewrite for_nonpos in Hin by assumption.
    destruct (distribute_store inp boot bds r Hr) as [_ Hst].
    rewrite Hst in Hin. apply filter_In in Hin. now apply Z.eqb_eq.
  - replace t with ((t - 1) + 1) in Hin by lia.
    rewrite simulate_succ in Hin by lia.
    now apply store_timestep_home in Hin.
Qed.

(** X3: at every step count [t] of a run started from the initial
    distribution of an input with N >= 0 bodies, each process owns only
    bodies whose position is in its own octant, and the populations sum
    to N. *)
Theorem run_keeps_ownership_and_population (inp : input) (boot : world)
    (bds : arr Body) (t : Z) :
  0 <= in_N inp ->
  let w := simulate pow (in_DT inp) t (distribute inp boot bds) in
  (forall r b, 0 <= r < NP -> In b (store (w r)) -> get_octant_rank (x b) = r)
  /\ population w = in_N inp.
Proof.
  intros HN w. split.
  - intros r b Hr Hin. now apply (run_home inp boot bds t r).
  - unfold w.
    destruct (population_simulate (in_DT inp) t (distribute inp boot bds))
      as [_ ->].
    + intros r Hr. now apply n_body_distribute_nonneg.
    + now apply population_distribute.
Qed.

End Run.

Lemma run_keeps_ownership_and_population_witness :
  let w := run pow_ref example_input example_world (fun _ => zero_body) in
  population w = 3
  /\ map (fun r => n_body (w r)) (ints NP) = [0; 0; 0; 0; 0; 0; 2; 1].
Proof.
  split; [|vm_compute; reflexivity].
  apply (run_keeps_ownership_and_population pow_ref example_input example_world
           (fun _ => zero_body) 2).
  simpl. lia.
Defined.

(** ** More on the candidate test *)

Lemma round_nonneg_not_below_zero (mx ex : Z) (lx : location) :
  SFltb (binary_round_aux prec emax false mx ex lx) (S754_zero false) = false.
Proof.
  unfold binary_round_aux.
  destruct (shr_fexp prec emax mx ex lx) as [mrs' e'].
  destruct (shr_fexp prec emax _ e' loc_Exact) as [mrs'' e''].
  destruct (shr_m mrs'') as [|m|m]; try reflexivity.
  destruct (e'' <=? emax - prec); reflexivity.
Qed.

Lemma positive_axis_agrees (p : float) :
  (0 <? p)%float = true -> (1 * p <? 0)%float = false.
Proof.
  rewrite !ltb_spec, mul_spec.
  change (Prim2SF 0) with (S754_zero false).
  change (Prim2SF 1) with (S754_finite false 4503599627370496 (-52)).
  destruct (Prim2SF p) as [s|s| |s m e]; try destruct s;
    try discriminate; intros _; try reflexivity.
  apply round_nonneg_not_below_zero.
Qed.

Lemma other_axis_agrees (p : float) :
  (0 <? p)%float = false -> (-1 * p <? 0)%float = false.
Proof.
  rewrite !ltb_spec, mul_spec.
  change (Prim2SF 0) with (S754_zero false).
  change (Prim2SF (-1)) with (S754_finite true 4503599627370496 (-52)).
  destruct (Prim2SF p) as [s|s| |s m e]; try destruct s;
    try discriminate; intros _; try reflexivity.
  apply round_nonneg_not_below_zero.
Qed.

Lemma own_template (b0 b1 b2 : bool) (k : Z) :
  0 <= k < N_DIM ->
  double_of_int
    (octant_dims (int_of_bool b2 * 4 + int_of_bool b1 * 2 + int_of_bool b0) k)
  = if (if k =? 0 then b0 else if k =? 1 then b1 else b2) then 1%float
    else (-1)%float.
Proof.
  unfold N_DIM. intros Hk.
  assert (k = 0 \/ k = 1 \/ k = 2) as [-> | [-> | ->]] by lia;
    destruct b0, b1, b2; reflexivity.
Qed.

Lemma own_axis_skipped (pos : vec3) (k : Z) :
  0 <= k < N_DIM ->
  (double_of_int (octant_dims (get_octant_rank pos) k) * vget pos k <? 0)%float
  = false.
Proof.
  intros Hk. unfold get_octant_rank. rewrite own_template by assumption.
  unfold N_DIM in Hk.
  assert (k = 0 \/ k = 1 \/ k = 2) as [-> | [-> | ->]] by lia;
    cbn [Z.eqb Pos.eqb];
    match goal with
    | |- context [if (0 <? ?p)%float then _ else _] =>
        destruct (0 <? p)%float eqn:E;
        [now apply positive_axis_agrees|now apply other_axis_agrees]
    end.
Qed.

Lemma boundary_dist_own (pow : float -> float -> float) (pos : vec3) :
  boundary_dist pow pos (get_octant_rank pos) = 0%float.
Proof.
  unfold boundary_dist. rewrite for_3.
  rewrite !own_axis_skipped by (unfold N_DIM; lia). reflexivity.
Qed.

Lemma shouldSend_own (pow : float -> float -> float) (pos : vec3)
    (transmit : arr Z) :
  shouldSend pow pos transmit (get_octant_rank pos) = 0.
Proof.
  rewrite shouldSend_entries, boundary_dist_own.
  pose proof (get_octant_rank_range pos) as Hr.
  replace ((0 <=? get_octant_rank pos) && (get_octant_rank pos <? NP))
    with true; [reflexivity|].
  symmetry. apply andb_true_intro. split; [apply Z.leb_le|apply Z.ltb_lt]; lia.
Qed.

(** X4: for the octant that owns a position no axis disagrees with the sign
    template, so the accumulated distance is 0 and the body is never marked
    as a ghost candidate for its own octant, whatever [pow] computes. *)
Theorem shouldSend_skips_own_octant (pow : float -> float -> float)
    (pos : vec3) (transmit : arr Z) :
  boundary_dist pow pos (get_octant_rank pos) = 0%float
  /\ shouldSend pow pos transmit (get_octant_rank pos) = 0.
Proof. split; [apply boundary_dist_own|apply shouldSend_own]. Qed.

Lemma digits2_pos_bound (m : positive) : Z.pos m < 2 ^ Z.pos (digits2_pos m).
Proof.
  induction m as [h IH|h IH|]; simpl digits2_pos.
  - rewrite Pos2Z.inj_succ, Z.pow_succ_r by lia. lia.
  - rewrite Pos2Z.inj_succ, Z.pow_succ_r by lia. lia.
  - simpl. lia.
Qed.

Lemma valid_mantissa_bound (s : bool) (m : positive) (e : Z) :
  valid_binary (S754_finite s m e) = true -> Z.pos m < 2 ^ 53.
Proof.
  unfold valid_binary, bounded, canonical_mantissa, fexp. intros H.
  apply andb_prop in H. destruct H as [H _]. apply Z.eqb_eq in H.
  pose proof (digits2_pos_bound m) as Hb.
  assert (Z.pos (digits2_pos m) <= 53) as Hd by (unfold prec in H; lia).
  apply Z.lt_le_trans with (1 := Hb). apply Z.pow_le_mono_r; lia.
Qed.

(** Truncation of a double in [0, 1). *)
Lemma int_of_double_below_one (d : float) :
  (0 <=? d)%float = true -> (d <? 1)%float = true -> int_of_double d = 0.
Proof.
  rewrite leb_spec, ltb_spec. unfold int_of_double.
  pose proof (Prim2SF_valid d) as Hv.
  change (Prim2SF 0) with (S754_zero false).
  change (Prim2SF 1) with (S754_finite false 4503599627370496 (-52)).
  destruct (Prim2SF d) as [s|s| |s m e]; try reflexivity;
    try (destruct s; discriminate); try discriminate.
  destruct s; [discriminate|]. intros _ Hlt.
  pose proof (valid_mantissa_bound false m e Hv) as Hm.
  unfold SFltb, SFcompare in Hlt.
  assert (e < 0 /\ Z.pos m < 2 ^ (- e)) as [He Hlt'].
  { destruct (e ?= -52) eqn:Ec; try discriminate.
    - apply Z.compare_eq in Ec. subst e. split; [lia|].
      destruct (Pos.compare_cont Eq m 4503599627370496) eqn:Ecmp;
        try discriminate.
      assert (2 ^ (- -52) = 4503599627370496) as ->
        by (vm_compute; reflexivity).
      exact (Pos2Z.pos_lt_pos _ _ Ecmp).
    - rewrite Z.compare_lt_iff in Ec. split; [lia|].
      apply Z.lt_le_trans with (1 := Hm). apply Z.pow_le_mono_r; lia. }
  replace (0 <=? e) with false by (symmetry; apply Z.leb_gt; lia).
  rewrite Z.div_small by lia. reflexivity.
Qed.

(** X5: [shouldSend] writes the entries 0 .. 7 and nothing else, each with
    0 or 1; an entry is 0 whenever the accumulated distance is above
    CUTOFF_SQR; and it is 0 whenever that distance lies in [0, 1), because
    [abs] sees the distance truncated to an integer. *)
Theorem shouldSend_rejections (pow : float -> float -> float) (pos : vec3)
    (transmit : arr Z) (o : Z) :
  0 <= o < NP ->
  (shouldSend pow pos transmit o = 0 \/ shouldSend pow pos transmit o = 1)
  /\ ((CUTOFF_SQR <? boundary_dist pow pos o)%float = true ->
      shouldSend pow pos transmit o = 0)
  /\ ((0 <=? boundary_dist pow pos o)%float = true ->
      (boundary_dist pow pos o <? 1)%float = true ->
      shouldSend pow pos transmit o = 0)
  /\ (forall j, j < 0 \/ NP <= j -> shouldSend pow pos transmit j = transmit j).
Proof.
  intros Ho.
  assert ((0 <=? o) && (o <? NP) = true) as Hin
    by (apply andb_true_intro; split; [apply Z.leb_le|apply Z.ltb_lt]; lia).
  rewrite shouldSend_entries, Hin. unfold rejects.
  split; [destruct (_ || _); auto|]. split; [|split].
  - intros ->. now rewrite orb_true_r.
  - intros H0 H1. rewrite (int_of_double_below_one _ H0 H1). reflexivity.
  - intros j Hj. rewrite shouldSend_entries.
    replace ((0 <=? j) && (j <? NP)) with false; [reflexivity|].
    symmetry. apply andb_false_iff.
    destruct Hj; [left; apply Z.leb_gt|right; apply Z.ltb_ge]; lia.
Qed.

Lemma shouldSend_rejections_witness :
  boundary_dist pow_ref (V3 (-0.75) 1 (-0.5)) 3 = 0.5625%float
  /\ shouldSend pow_ref (V3 (-0.75) 1 (-0.5)) zeros 3 = 0.
Proof.
  split; [reflexivity|].
  destruct (shouldSend_rejections pow_ref (V3 (-0.75) 1 (-0.5)) zeros 3)
    as (_ & _ & H & _); [unfold NP; lia|].
  apply H; reflexivity.
Defined.

(** ** The ghost exchange *)

Lemma count_of_succ (p : Z -> bool) (k : Z) :
  0 <= k -> count_of p (k + 1) = count_of p k + (if p k then 1 else 0).
Proof.
  intros H. unfold count_of. rewrite filter_ints_succ by assumption.
  rewrite length_app. destruct (p k); simpl; lia.
Qed.

Lemma count_of_nonneg (p : Z -> bool) (n : Z) : 0 <= count_of p n.
Proof. unfold count_of. lia. Qed.

Lemma count_of_mono (p : Z -> bool) (k n : Z) :
  0 <= k -> k <= n -> count_of p k <= count_of p n.
Proof.
  intros Hk Hle. replace n with (k + (n - k)) by lia.
  assert (0 <= n - k) as Hd by lia. revert Hd. generalize (n - k).
  intros e He. pattern e. apply Z_count_ind; [| |assumption].
  - rewrite Z.add_0_r. lia.
  - intros j Hj IH. replace (k + (j + 1)) with ((k + j) + 1) by lia.
    rewrite count_of_succ by lia. destruct (p (k + j)); lia.
Qed.

Section Ghosts.

Variable pow : float -> float -> float.

(** The inner loop of lines 214-216 on one [transmit] array. *)
Lemma count_marks (t sc : arr Z) (d : Z) :
  for_ NP
    (fun j sc => if negb (t j =? 0) then upd sc j (sc j + 1) else sc) sc d
  = sc d + (if (0 <=? d) && (d <? NP) && negb (t d =? 0) then 1 else 0).
Proof.
  apply (for_invariant
           (fun k sc' =>
              sc' d
              = sc d + (if (0 <=? d) && (d <? k) && negb (t d =? 0) then 1
                        else 0))).
  - unfold NP. lia.
  - destruct (0 <=? d) eqn:E0; destruct (d <? 0) eqn:E1; simpl; lia.
  - intros j sc' Hj IH. rewrite in_range_succ by lia.
    destruct (Z.eqb_spec d j) as [->|Hne].
    + rewrite orb_true_r.
      replace ((0 <=? j) && (j <? j)) with false in IH
        by (symmetry; apply andb_false_iff; right; apply Z.ltb_ge; lia).
      simpl in IH. simpl andb.
      destruct (negb (t j =? 0)); [rewrite upd_same|]; lia.
    + rewrite orb_false_r.
      destruct (negb (t j =? 0)); [rewrite upd_other by assumption|]; exact IH.
Qed.

Lemma ghost_count_spec (n : Z) (bs : arr Body) (d : Z) :
  0 <= d < NP ->
  ghost_count pow n bs d = count_of (fun i => marked pow (bs i) d) n.
Proof.
  intros Hd. unfold ghost_count.
  assert ((0 <=? d) && (d <? NP) = true) as Hin
    by (apply andb_true_intro; split; [apply Z.leb_le|apply Z.ltb_lt]; lia).
  destruct (Z_le_gt_dec 0 n) as [Hn|Hn].
  - apply (for_invariant
             (fun k sc => sc d = count_of (fun i => marked pow (bs i) d) k));
      [assumption|reflexivity|].
    intros i sc Hi IH. rewrite count_marks, Hin, count_of_succ by lia.
    rewrite IH. reflexivity.
  - rewrite for_nonpos by lia. unfold count_of. now rewrite ints_nonpos by lia.
Qed.

Lemma ghost_fill_spec (n : Z) (bs sb : arr Body) (displ : arr Z) :
  (forall d e, 0 <= d < e -> e < NP ->
     displ d + count_of (fun i => marked pow (bs i) d) n <= displ e) ->
  forall d, 0 <= d < NP ->
    slice (fst (ghost_fill pow n bs sb displ)) (displ d)
      (count_of (fun i => marked pow (bs i) d) n)
    = map bs (filter (fun i => marked pow (bs i) d) (ints n)).
Proof.
  intros Hdis.
  set (cm := fun k d => count_of (fun i => marked pow (bs i) d) k).
  destruct (Z_le_gt_dec 0 n) as [Hn|Hn].
  2:{ intros d Hd. unfold count_of. rewrite ints_nonpos by lia.
      now rewrite slice_nonpos by (simpl; lia). }
  assert (forall d, 0 <= d < NP ->
            snd (ghost_fill pow n bs sb displ) d = displ d + cm n d
            /\ slice (fst (ghost_fill pow n bs sb displ)) (displ d) (cm n d)
               = map bs (filter (fun i => marked pow (bs i) d) (ints n))) as H.
  { unfold ghost_fill.
    apply (for_invariant
             (fun k sp =>
                forall d, 0 <= d < NP ->
                  snd sp d = displ d + cm k d
                  /\ slice (fst sp) (displ d) (cm k d)
                     = map bs (filter (fun i => marked pow (bs i) d) (ints k)))).
    - assumption.
    - intros d Hd. unfold cm, count_of. rewrite ints_nonpos by lia. simpl.
      split; [lia|]. now rewrite slice_nonpos by lia.
    - intros i sp Hi IH. cbv zeta.
      match goal with
      | |- context [for_ NP ?body sp] =>
          assert (forall d, 0 <= d < NP ->
                    snd (for_ NP body sp) d
                    = displ d + cm (if d <? NP then i + 1 else i) d
                    /\ slice (fst (for_ NP body sp)) (displ d)
                         (cm (if d <? NP then i + 1 else i) d)
                       = map bs
                           (filter (fun i => marked pow (bs i) d)
                              (ints (if d <? NP then i + 1 else i))))
            as Hinner
      end.
      {
        apply (for_invariant
                 (fun j sp' =>
                    forall d, 0 <= d < NP ->
                      snd sp' d = displ d + cm (if d <? j then i + 1 else i) d
                      /\ slice (fst sp') (displ d)
                           (cm (if d <? j then i + 1 else i) d)
                         = map bs
                             (filter (fun i => marked pow (bs i) d)
                                (ints (if d <? j then i + 1 else i))))
                 NP).
        + unfold NP. lia.
        + intros d Hd.
          replace (d <? 0) with false by (symmetry; apply Z.ltb_ge; lia).
          now apply IH.
        + intros j sp' Hj IJ d Hd.
          fold (marked pow (bs i) j).
          destruct (IJ j Hj) as [IJp IJs].
          replace (j <? j) with false in IJp, IJs
            by (symmetry; apply Z.ltb_ge; lia).
          assert (forall e, 0 <= e < NP ->
                    cm (if e <? j then i + 1 else i) e <= cm n e) as Hbound.
          { intros e He. unfold cm.
            destruct (e <? j); apply count_of_mono; lia. }
          destruct (Z.eq_dec d j) as [->|Hne].
          * replace (j <? j + 1) with true by (symmetry; apply Z.ltb_lt; lia).
            assert (cm (i + 1) j
                    = cm i j + (if marked pow (bs i) j then 1 else 0)) as ->
              by (exact (count_of_succ (fun i0 => marked pow (bs i0) j) i
                           (proj1 Hi))).
            rewrite filter_ints_succ by lia.
            destruct (marked pow (bs i) j) eqn:Em.
            -- cbn [fst snd]. rewrite upd_same. split; [lia|].
               rewrite IJp. rewrite slice_upd_end by apply count_of_nonneg.
               rewrite IJs, map_app. reflexivity.
            -- rewrite Z.add_0_r, app_nil_r. now split.
          * assert ((d <? j + 1) = (d <? j)) as ->.
            { destruct (d <? j) eqn:E;
                [apply Z.ltb_lt in E; apply Z.ltb_lt|
                 apply Z.ltb_ge in E; apply Z.ltb_ge]; lia. }
            destruct (IJ d Hd) as [IJp' IJs'].
            destruct (marked pow (bs i) j) eqn:Em; [|now split].
            cbn [fst snd]. rewrite upd_other by assumption.
            split; [assumption|]. rewrite <- IJs'.
            apply slice_upd_outside. rewrite IJp.
            pose proof (Hbound d Hd) as Hbd.
            pose proof (count_of_nonneg (fun i => marked pow (bs i) j) i) as Hnn.
            fold (cm i j) in Hnn.
            assert (cm i j < cm n j) as Hlt.
            { pose proof (count_of_mono (fun i => marked pow (bs i) j) (i + 1) n
                            ltac:(lia) ltac:(lia)) as Hm.
              rewrite count_of_succ, Em in Hm by lia. unfold cm. lia. }
            pose proof (count_of_nonneg (fun i0 => marked pow (bs i0) d)
                          (if d <? j then i + 1 else i)) as Hnd.
            fold (cm (if d <? j then i + 1 else i) d) in Hnd.
            destruct (Z_lt_ge_dec d j) as [Hlt'|Hge].
            -- right. pose proof (Hdis d j ltac:(lia) ltac:(lia)) as Hx.
               fold (cm n d) in Hx. lia.
            -- left. pose proof (Hdis j d ltac:(lia) ltac:(lia)) as Hx.
               fold (cm n j) in Hx. lia. }
      intros d Hd. specialize (Hinner d Hd).
      replace (d <? NP) with true in Hinner
        by (symmetry; apply Z.ltb_lt; lia).
      exact Hinner. }
  intros d Hd. now apply H.
Qed.

Lemma ghost_outbox_spec (p : proc) (d : Z) :
  0 <= d < NP ->
  0 <= send_count (ghost_outbox pow p) d
  /\ slice (out_buf (ghost_outbox pow p)) (send_displ (ghost_outbox pow p) d)
       (send_count (ghost_outbox pow p) d)
     = filter (fun b => marked pow b d) (store p).
Proof.
  intros Hd. unfold ghost_outbox. cbn [send_count send_displ out_buf].
  assert (forall e, 0 <= e < NP ->
            ghost_count pow (n_body p) (bodies p) e
            = count_of (fun i => marked pow (bodies p i) e) (n_body p)) as Hcnt
    by (intros e He; now apply ghost_count_spec).
  rewrite (Hcnt d Hd). split; [apply count_of_nonneg|].
  destruct (displacements_spec (ghost_count pow (n_body p) (bodies p)))
    as [_ Hdis].
  rewrite ghost_fill_spec; [| |assumption].
  - unfold store, slice. simpl.
    apply (map_filter_comm (bodies p) (fun b => marked pow b d)).
  - intros a e Ha He. rewrite !Hdis by lia. rewrite <- Hcnt by lia.
    rewrite <- prefix_sum_succ by lia. apply prefix_sum_mono; try lia.
    intros j Hj. rewrite Hcnt by lia. apply count_of_nonneg.
Qed.

Lemma ghost_set_spec (w : world) (r : Z) :
  0 <= r < NP ->
  ghost_set pow w r
  = flat_map (fun s => filter (fun b => marked pow b r) (store (w s))) (ints NP).
Proof.
  intros Hr. unfold ghost_set, ghost_exchange. cbv zeta. rewrite per_rank_eq.
  set (out := per_rank _).
  destruct (peer_exchange_spec out r (recvbuf (w r))) as [_ ->].
  - intros s Hs. unfold out. rewrite per_rank_eq. now apply ghost_outbox_spec.
  - apply flat_map_ext_in. intros s Hs. apply in_ints in Hs.
    unfold out. rewrite per_rank_eq. now apply ghost_outbox_spec.
Qed.

End Ghosts.

Lemma filter_none {A : Type} (l : list A) : filter (fun _ => false) l = [].
Proof. induction l; auto. Qed.

Lemma ghost_set_others (pow : float -> float -> float) (w : world) (r : Z) :
  0 <= r < NP ->
  (forall b, In b (store (w r)) -> get_octant_rank (x b) = r) ->
  ghost_set pow w r
  = flat_map
      (fun s =>
         if s =? r then [] else filter (fun b => marked pow b r) (store (w s)))
      (ints NP).
Proof.
  intros Hr Hhome. rewrite ghost_set_spec by assumption.
  apply flat_map_ext_in. intros s _.
  destruct (Z.eqb_spec s r) as [->|Hne]; [|reflexivity].
  rewrite (filter_ext_in _ (fun _ => false)).
  - apply filter_none.
  - intros b Hb. unfold marked. rewrite <- (Hhome b Hb).
    now rewrite shouldSend_own.
Qed.

(** X6: the GhostSet of process [r] is, source by source in rank order,
    the bodies of each store that [shouldSend] marks for octant [r], in
    store order; and when the bodies of process [r] are in their own octant,
    none of them is among its ghosts. *)
Theorem ghost_set_contents (pow : float -> float -> float) (w : world) (r : Z) :
  0 <= r < NP ->
  ghost_set pow w r
  = flat_map (fun s => filter (fun b => marked pow b r) (store (w s))) (ints NP)
  /\ ((forall b, In b (store (w r)) -> get_octant_rank (x b) = r) ->
      ghost_set pow w r
      = flat_map
          (fun s =>
             if s =? r then []
             else filter (fun b => marked pow b r) (store (w s)))
          (ints NP)).
Proof.
  intros Hr. split; [now apply ghost_set_spec|].
  intros Hhome. now apply ghost_set_others.
Qed.

Lemma ghost_set_contents_witness :
  ghost_set pow_ref example_world 6
  = [ mkBody 1 (V3 1 1 1) (V3 (-2) 0 0); mkBody 1 (V3 2 1 1) zero3 ]
  /\ ghost_set pow_ref example_world 6
     = flat_map
         (fun s => filter (fun b => marked pow_ref b 6) (store (example_world s)))
         (ints NP).
Proof.
  split; [vm_compute; reflexivity|].
  destruct (ghost_set_contents pow_ref example_world 6) as [H _];
    [unfold NP; lia|exact H].
Defined.

(** ** Conservation of the masses *)

Lemma mass_integrate (DT : float) (F : vec3) (b : Body) :
  mass (integrate DT F b) = mass b.
Proof. unfold integrate. now rewrite for_3. Qed.

Lemma map_flat_map_comm {A B C : Type} (f : B -> C) (g : A -> list B)
    (l : list A) :
  map f (flat_map g l) = flat_map (fun a => map f (g a)) l.
Proof.
  induction l as [|a l IH]; [reflexivity|]. simpl.
  now rewrite map_app, IH.
Qed.

Lemma masses_moved (pow : float -> float -> float) (DT : float) (w : world)
    (s : Z) :
  map mass (moved_store (n_body (w s)) (after_forces pow DT w s))
  = map mass (store (w s)).
Proof.
  rewrite after_forces_eq. unfold moved_store, store, slice.
  rewrite !map_map. apply map_ext_in. intros i Hi. apply in_ints in Hi.
  simpl. unfold update_bodies. rewrite run_body by assumption.
  apply mass_integrate.
Qed.

Lemma masses_timestep (pow : float -> float -> float) (DT : float) (w : world) :
  Permutation (map mass (all_bodies (timestep pow DT w)))
    (map mass (all_bodies w)).
Proof.
  rewrite (Permutation_map mass (timestep_permutation pow DT w)).
  unfold all_moved, all_bodies. rewrite !map_flat_map_comm.
  rewrite (flat_map_ext_in _ (fun s => map mass (store (w s)))); [reflexivity|].
  intros s _. apply masses_moved.
Qed.

(** X8: a time step changes no mass: the masses held by the eight
    processes after one step, and after any number of steps, are a
    rearrangement of the masses held before. *)
Theorem masses_are_conserved (pow : float -> float -> float) (DT : float)
    (w : world) (K : Z) :
  Permutation (map mass (all_bodies (timestep pow DT w)))
    (map mass (all_bodies w))
  /\ Permutation (map mass (all_bodies (simulate pow DT K w)))
       (map mass (all_bodies w)).
Proof.
  split; [apply masses_timestep|]. unfold simulate.
  destruct (Z_le_gt_dec 0 K) as [HK|HK]; [|now rewrite for_nonpos by lia].
  apply (for_invariant
           (fun _ w' =>
              Permutation (map mass (all_bodies w')) (map mass (all_bodies w))));
    [assumption|reflexivity|].
  intros i w' Hi IH. now rewrite masses_timestep.
Qed.

(** ** More on the centroids *)

Lemma ALL_ONES_wraps (i : Z) : 0 <= i -> ALL_ONES (Z.rem i NP) = 1.
Proof.
  intros Hi. pose proof (Z.rem_bound_pos i NP Hi ltac:(unfold NP; lia)) as Hb.
  unfold NP in *. generalize dependent (Z.rem i 8). intros k Hb.
  assert (k = 0 \/ k = 1 \/ k = 2 \/ k = 3 \/ k = 4 \/ k = 5 \/ k = 6 \/ k = 7)
    as H by lia.
  repeat (destruct H as [->|H]; [reflexivity|]). now subst k.
Qed.

Lemma zsum_ones {A : Type} (f : Z -> A) (n : Z) :
  0 <= n -> zsum (map fst (map (fun i => (1, f i)) (ints n))) = n.
Proof.
  intros Hn. pattern n. apply Z_count_ind; [reflexivity| |assumption].
  intros j Hj IH. rewrite ints_succ, !map_app by assumption.
  cbn [map fst]. rewrite zsum_snoc, IH. reflexivity.
Qed.

(** X9: the local centroid of a process that owns n > 0 bodies weighs
    every body with the count 1, also when n exceeds the eight entries of
    ALL_ONES: its mass is the sum of the masses, its position is weighted by
    mass, and its velocity is the sum of the velocities divided by
    (double) n. *)
Theorem local_centroid_unit_weights (p : proc) :
  0 < n_body p ->
  local_centroid p
  = weighted_centroid (map (fun i => (1, bodies p i)) (ints (n_body p)))
  /\ zsum (map fst (map (fun i => (1, bodies p i)) (ints (n_body p))))
     = n_body p.
Proof.
  intros Hn. split; [|apply zsum_ones; lia].
  unfold local_centroid. rewrite get_centroid_weighted by assumption.
  f_equal. apply map_ext_in. intros i Hi. apply in_ints in Hi.
  now rewrite ALL_ONES_wraps by lia.
Qed.

Lemma local_centroid_unit_weights_witness :
  local_centroid (example_world 7)
  = mkBody 2 (V3 1.5 1 1) (V3 (-1) 0 0)
  /\ local_centroid (example_world 7)
     = weighted_centroid
         (map (fun i => (1, bodies (example_world 7) i))
            (ints (n_body (example_world 7)))).
Proof.
  split; [vm_compute; reflexivity|].
  destruct (local_centroid_unit_weights (example_world 7)) as [H _];
    [simpl; lia|exact H].
Defined.

(** X10: the guard of [get_centroid] covers the local centroid only: when
    all eight processes are empty, the coordinator's centroid has mass 0 and
    every position and velocity component is 0/0, a NaN. *)
Theorem global_centroid_of_empty_world (w : world) :
  (forall r, 0 <= r < NP -> n_body (w r) = 0) ->
  global_centroid w = mkBody 0 (V3 nan nan nan) (V3 nan nan nan).
Proof.
  intros Hw. unfold global_centroid.
  rewrite get_centroid_weighted by (unfold NP; lia).
  rewrite (map_ext_in _ (fun _ => (0, zero_body))).
  - reflexivity.
  - intros i Hi. apply in_ints in Hi.
    rewrite Z.rem_small by lia. rewrite (Hw i Hi).
    unfold local_centroid. now rewrite (Hw i Hi).
Qed.

Lemma global_centroid_of_empty_world_witness :
  global_centroid (fun _ => idle) = mkBody 0 (V3 nan nan nan) (V3 nan nan nan).
Proof.
  apply (global_centroid_of_empty_world (fun _ => idle)). intros r _.
  reflexivity.
Defined.

(** ** Two bodies at the same position *)

Lemma sub_self (a : float) : finite a = true -> (a - a)%float = 0%float.
Proof.
  unfold finite. intros H. apply Prim2SF_inj. rewrite sub_spec.
  change (Prim2SF 0) with (S754_zero false).
  destruct (Prim2SF a) as [s|s| |s m e]; try discriminate.
  - destruct s; reflexivity.
  - unfold SF64sub, SFsub. rewrite Z.min_id. unfold shl_align.
    rewrite Z.sub_diag. cbn [fst]. reflexivity.
Qed.

Lemma quotient_by_zero_times_zero (q : float) : (q / 0 * 0)%float = nan.
Proof.
  apply Prim2SF_inj. rewrite mul_spec, div_spec.
  change (Prim2SF 0) with (S754_zero false).
  destruct (Prim2SF q) as [s|s| |s m e]; reflexivity.
Qed.

Lemma add_nan (a : float) : (a + nan)%float = nan.
Proof.
  apply Prim2SF_inj. rewrite add_spec. change (Prim2SF nan) with S754_nan.
  destruct (Prim2SF a) as [s|s| |s m e]; reflexivity.
Qed.

(** X12: the kernel excludes a body only by the identity of the two
    pointers.  For two different cells that hold the same finite position
    (a ghost coinciding with a local body, say), with pow(0, 2) = 0 and
    pow(0, 1.5) = 0, the separation is 0, the quotient is a division by
    zero, and every component of the accumulator becomes NaN. *)
Theorem coincident_bodies_give_nan (pow : float -> float -> float)
    (m : memory) (this that : ptr) (vec : vec3) :
  ptr_eqb this that = false ->
  x (load m that) = x (load m this) ->
  finite (c0 (x (load m this))) = true ->
  finite (c1 (x (load m this))) = true ->
  finite (c2 (x (load m this))) = true ->
  pow 0%float 2%float = 0%float ->
  pow 0%float 1.5%float = 0%float ->
  sq_separation pow (load m this) (load m that) = 0%float
  /\ compute_force_as_vector pow m this that vec = V3 nan nan nan.
Proof.
  intros Hne Hx H0 H1 H2 Hp2 Hp15.
  assert (sq_separation pow (load m this) (load m that) = 0%float) as Hr2.
  { unfold sq_separation. rewrite Hx.
    change (vget ?a 0) with (c0 a). change (vget ?a 1) with (c1 a).
    change (vget ?a 2) with (c2 a).
    rewrite !sub_self by assumption. rewrite Hp2. reflexivity. }
  split; [exact Hr2|].
  unfold compute_force_as_vector. rewrite Hne, Hr2.
  change (CUTOFF_SQR <? 0)%float with false. cbv iota.
  rewrite Hp15, for_3, Hx.
  change (vget ?a 0) with (c0 a). change (vget ?a 1) with (c1 a).
  change (vget ?a 2) with (c2 a).
  destruct vec as [a b c]. cbn [vset vget c0 c1 c2 Z.eqb Pos.eqb].
  rewrite !sub_self by assumption.
  rewrite !quotient_by_zero_times_zero, !add_nan. reflexivity.
Qed.

Lemma coincident_bodies_give_nan_witness :
  let m :=
    mkMem (fun _ => mkBody 1 (V3 1 2 3) zero3)
      (fun _ => mkBody 5 (V3 1 2 3) (V3 1 1 1)) in
  compute_force_as_vector pow_ref m (mkPtr Bodies 0) (mkPtr Recvbuf 0) zero3
  = V3 nan nan nan.
Proof.
  apply (coincident_bodies_give_nan pow_ref
           (mkMem (fun _ => mkBody 1 (V3 1 2 3) zero3)
              (fun _ => mkBody 5 (V3 1 2 3) (V3 1 1 1)))
           (mkPtr Bodies 0) (mkPtr Recvbuf 0) zero3); reflexivity.
Defined.

(** ** The exchange as a whole *)

Lemma peer_exchange_frame (out : arr outbox) (r : Z) (rb : arr Body) (j : Z) :
  (forall s, 0 <= s < NP -> 0 <= send_count (out s) r) ->
  j < 0 \/ fst (peer_exchange out r rb) <= j ->
  snd (peer_exchange out r rb) j = rb j.
Proof.
  intros Hc. destruct (peer_exchange_spec out r rb Hc) as [-> _].
  unfold peer_exchange. cbv zeta. cbn [fst snd].
  set (rc := MPI_Alltoall (fun s => send_count (out s)) r).
  change (fun s => send_count (out s) r) with rc.
  destruct (displacements_spec rc) as [_ Hdis].
  unfold MPI_Alltoallv. revert j.
  apply (for_invariant
           (fun k b => forall j, j < 0 \/ prefix_sum rc k <= j -> b j = rb j)).
  - unfold NP. lia.
  - reflexivity.
  - intros k b Hk IH j Hj. rewrite prefix_sum_succ in Hj by lia.
    assert (0 <= prefix_sum rc k) as Hp.
    { apply prefix_sum_nonneg. intros i Hi. apply Hc. lia. }
    pose proof (Hc k Hk) as Hck. change (send_count (out k) r) with (rc k) in Hck.
    unfold copy. rewrite (Hdis k Hk).
    replace ((prefix_sum rc k <=? j) && (j <? prefix_sum rc k + rc k))
      with false.
    + apply IH. lia.
    + symmetry. apply andb_false_iff.
      destruct Hj; [left; apply Z.leb_gt|right; apply Z.ltb_ge]; lia.
Qed.

(** X13: the two-phase exchange delivers to process [r], when every count
    sent to it is non-negative: as the number of bodies received, the sum of
    the eight counts; in the first cells of its receive buffer, the eight
    announced segments of the senders' buffers, in rank order, a count of 0
    contributing nothing; and every cell from that number on is left as it
    was. *)
Theorem peer_exchange_delivers (out : arr outbox) (r : Z) (rb : arr Body) :
  (forall s, 0 <= s < NP -> 0 <= send_count (out s) r) ->
  fst (peer_exchange out r rb) = prefix_sum (fun s => send_count (out s) r) NP
  /\ slice (snd (peer_exchange out r rb)) 0 (fst (peer_exchange out r rb))
     = flat_map
         (fun s =>
            slice (out_buf (out s)) (send_displ (out s) r)
              (send_count (out s) r))
         (ints NP)
  /\ (forall j, fst (peer_exchange out r rb) <= j ->
        snd (peer_exchange out r rb) j = rb j).
Proof.
  intros Hc. destruct (peer_exchange_spec out r rb Hc) as [H1 H2].
  split; [exact H1|]. split; [exact H2|].
  intros j Hj. apply peer_exchange_frame; [assumption|now right].
Qed.

Lemma peer_exchange_delivers_witness :
  let out := fun s => ghost_outbox pow_ref (example_world s) in
  fst (peer_exchange out 7 (fun _ => zero_body)) = 1
  /\ slice (snd (peer_exchange out 7 (fun _ => zero_body))) 0 2
     = [ mkBody 2 (V3 (-1) 1 1) zero3; zero_body ].
Proof.
  assert (forall s, 0 <= s < NP ->
            0 <= send_count (ghost_outbox pow_ref (example_world s)) 7) as Hc.
  { intros s Hs. unfold NP in Hs.
    assert (s = 0 \/ s = 1 \/ s = 2 \/ s = 3 \/ s = 4 \/ s = 5 \/ s = 6 \/ s = 7)
      as H by lia.
    repeat (destruct H as [->|H]; [vm_compute; discriminate|]).
    subst s. vm_compute. discriminate. }
  destruct (peer_exchange_delivers
              (fun s => ghost_outbox pow_ref (example_world s)) 7
              (fun _ => zero_body) Hc) as (H1 & _ & _).
  split; [rewrite H1; reflexivity|vm_compute; reflexivity].
Defined.

(** ** Consequences for a whole run *)

(** X7: at every step count of a run started from the initial
    distribution, the GhostSet of process [r] holds bodies of the other
    seven processes only: no process receives a copy of a body it owns, so
    the force loop meets no body twice. *)
Theorem run_ghosts_come_from_others (pow : float -> float -> float)
    (inp : input) (boot : world) (bds : arr Body) (t r : Z) :
  0 <= r < NP ->
  let w := simulate pow (in_DT inp) t (distribute inp boot bds) in
  ghost_set pow w r
  = flat_map
      (fun s =>
         if s =? r then [] else filter (fun b => marked pow b r) (store (w s)))
      (ints NP).
Proof.
  intros Hr w. apply ghost_set_others; [assumption|].
  intros b Hb. now apply (run_home pow inp boot bds t r).
Qed.

Lemma run_ghosts_come_from_others_witness :
  let w :=
    simulate pow_ref (in_DT example_input) 1
      (distribute example_input example_world (fun _ => zero_body)) in
  map (fun r => length (ghost_set pow_ref w r)) (ints NP)
  = [3; 3; 3; 3; 3; 3; 1; 0]%nat
  /\ ghost_set pow_ref w 7
     = flat_map
         (fun s =>
            if s =? 7 then []
            else filter (fun b => marked pow_ref b 7) (store (w s)))
         (ints NP).
Proof.
  split; [vm_compute; reflexivity|].
  apply (run_ghosts_come_from_others pow_ref example_input example_world
           (fun _ => zero_body) 1 7).
  unfold NP. lia.
Defined.

(** ** Export bookkeeping of the loop over the bodies *)

(** X11: after the loop over the [n] bodies of process [rank], the exile
    flag of body [i] is -1 when its new position is in octant [rank] and the
    new octant otherwise; [send_count[d]] is the number of flags equal to
    [d]; nothing is counted for [rank] itself; and the cells from [n] on are
    as before the loop. *)
Theorem exile_flags_and_counts (pow : float -> float -> float) (rank : Z)
    (DT : float) (n sum : Z) (ghosts bs : arr Body) (ex : arr Z) :
  0 <= rank -> 0 <= n ->
  let st := update_bodies pow rank DT n sum ghosts bs ex in
  (forall i, 0 <= i < n ->
     mv_exile st i
     = if get_octant_rank (x (mv_bodies st i)) =? rank then -1
       else get_octant_rank (x (mv_bodies st i)))
  /\ (forall d, 0 <= d -> mv_send_count st d = count_dest (mv_exile st) n d)
  /\ mv_send_count st rank = 0
  /\ (forall i, n <= i -> mv_exile st i = ex i /\ mv_bodies st i = bs i).
Proof.
  intros Hrank Hn st.
  assert (forall i, 0 <= i < n ->
            mv_exile st i
            = if get_octant_rank (x (mv_bodies st i)) =? rank then -1
              else get_octant_rank (x (mv_bodies st i))) as Hex
    by (intros i Hi; now apply update_bodies_exile).
  assert (forall d, 0 <= d -> mv_send_count st d = count_dest (mv_exile st) n d)
    as Hcnt by (intros d Hd; now apply update_bodies_send_count).
  split; [exact Hex|]. split; [exact Hcnt|]. split.
  - rewrite Hcnt by assumption. unfold count_dest.
    rewrite (filter_ints_ext _ (fun _ => false)).
    + clear. induction (ints n); auto.
    + intros i Hi. rewrite Hex by assumption.
      destruct (get_octant_rank (x (mv_bodies st i)) =? rank) eqn:E.
      * apply Z.eqb_neq. lia.
      * exact E.
  - intros i Hi. unfold st, update_bodies.
    destruct (run_untouched pow rank DT n sum ghosts bs ex n i) as [H1 H2];
      try lia.
    now split.
Qed.

Lemma exile_flags_and_counts_witness :
  let st :=
    update_bodies pow_ref 7 1 2 1 (fun _ => mkBody 2 (V3 (-1) 1 1) zero3)
      (bodies (example_world 7)) zeros in
  map (mv_exile st) (ints 2) = [6; -1]
  /\ map (mv_send_count st) (ints NP) = [0; 0; 0; 0; 0; 0; 1; 0]
  /\ mv_send_count st 7 = 0.
Proof.
  split; [vm_compute; reflexivity|]. split; [vm_compute; reflexivity|].
  destruct (exile_flags_and_counts pow_ref 7 1 2 1
              (fun _ => mkBody 2 (V3 (-1) 1 1) zero3) (bodies (example_world 7))
              zeros) as (_ & _ & H & _); [lia|lia|exact H].
Defined.

(** ** A force that is not a number *)

Lemma nan_mul (a : float) : (nan * a)%float = nan.
Proof.
  apply Prim2SF_inj. rewrite mul_spec. change (Prim2SF nan) with S754_nan.
  reflexivity.
Qed.

Lemma nan_div (a : float) : (nan / a)%float = nan.
Proof.
  apply Prim2SF_inj. rewrite div_spec. change (Prim2SF nan) with S754_nan.
  reflexivity.
Qed.

(** X14: a body whose accumulated force is NaN in every component leaves
    the integration with NaN velocity and NaN position, whatever DT and its
    mass are, and the partitioner, whose comparisons with a NaN are all
    false, assigns it to octant 0. *)
Theorem nan_force_sends_body_to_octant_0 (DT : float) (b : Body) :
  integrate DT (V3 nan nan nan) b
  = mkBody (mass b) (V3 nan nan nan) (V3 nan nan nan)
  /\ get_octant_rank (x (integrate DT (V3 nan nan nan) b)) = 0.
Proof.
  assert (integrate DT (V3 nan nan nan) b
          = mkBody (mass b) (V3 nan nan nan) (V3 nan nan nan)) as H.
  { unfold integrate. rewrite for_3. destruct b as [m [x0 x1 x2] [v0 v1 v2]].
    cbn [vset vget c0 c1 c2 mass x v Z.eqb Pos.eqb].
    rewrite !nan_mul, !nan_div, !add_nan, !nan_mul, !add_nan. reflexivity. }
  split; [exact H|]. rewrite H. reflexivity.
Qed.

(** ** What a time step reads *)

Lemma slice_pointwise {A : Type} (a b : arr A) (n j : Z) :
  slice a 0 n = slice b 0 n -> 0 <= j < n -> a j = b j.
Proof.
  intros H Hj. unfold slice in H.
  assert (In j (ints n)) as Hin by now apply in_ints.
  revert H Hin. generalize (ints n). intros l. induction l as [|i l IH].
  - contradiction.
  - simpl. intros H [->|Hin]; injection H as H1 H2; [exact H1|now apply IH].
Qed.

Lemma accumulate_force_agree (pow : float -> float -> float) (n sum : Z)
    (a b g h : arr Body) (i : Z) :
  (forall j, 0 <= j < n -> a j = b j) ->
  (forall j, 0 <= j < sum -> g j = h j) ->
  a i = b i ->
  accumulate_force pow n sum (mkMem a g) i
  = accumulate_force pow n sum (mkMem b h) i.
Proof.
  intros Hab Hgh Hi. rewrite (accumulate_force_ext pow n sum a b g i Hab Hi).
  unfold accumulate_force. apply for_ext. intros j F Hj.
  unfold compute_force_as_vector, load. simpl. now rewrite (Hgh j Hj).
Qed.

Lemma update_bodies_agree (pow : float -> float -> float) (rank : Z)
    (DT : float) (n sum : Z) (g h a b : arr Body) (ex ex' : arr Z) :
  (forall j, 0 <= j < n -> a j = b j) ->
  (forall j, 0 <= j < sum -> g j = h j) ->
  forall i, 0 <= i < n ->
    mv_bodies (update_bodies pow rank DT n sum g a ex) i
    = mv_bodies (update_bodies pow rank DT n sum h b ex') i.
Proof.
  intros Hab Hgh. unfold update_bodies.
  destruct (Z_le_gt_dec 0 n) as [Hn|Hn]; [|intros i Hi; lia].
  assert (forall k, 0 <= k -> k <= n ->
            forall i, 0 <= i < n ->
              mv_bodies (for_ k (update_body pow rank DT n sum g)
                           (mkMoved a zeros ex)) i
              = mv_bodies (for_ k (update_body pow rank DT n sum h)
                             (mkMoved b zeros ex')) i) as Hall.
  { intros k Hk. pattern k. apply Z_count_ind; [| |assumption].
    - intros _ i Hi. rewrite !for_nonpos by lia. now apply Hab.
    - intros m Hm IH Hle i Hi. rewrite !for_succ by assumption.
      rewrite !mv_bodies_update_body.
      destruct (Z.eq_dec i m) as [->|Hne].
      + rewrite !upd_same. rewrite (IH ltac:(lia) m Hi). f_equal.
        apply accumulate_force_agree; try assumption.
        * intros j Hj. apply IH; lia.
        * apply IH; lia.
      + rewrite !upd_other by assumption. apply IH; lia. }
  intros i Hi. apply Hall; lia.
Qed.

Section Scratch.

Variable pow : float -> float -> float.

Lemma ghost_count_received (w : world) (r : Z) :
  0 <= r < NP ->
  fst (ghost_exchange pow w r) = Z.of_nat (length (ghost_set pow w r)).
Proof.
  intros Hr. unfold ghost_set. symmetry. apply length_slice.
  unfold ghost_exchange. cbv zeta. rewrite per_rank_eq.
  set (out := per_rank _).
  destruct (peer_exchange_spec out r (recvbuf (w r))) as [-> _].
  - intros s Hs. unfold out. rewrite per_rank_eq. now apply ghost_outbox_spec.
  - apply prefix_sum_nonneg. intros s Hs. unfold out. rewrite per_rank_eq.
    now apply ghost_outbox_spec.
Qed.

Variables (DT : float) (w w' : world).

Hypothesis same_stores :
  forall r, 0 <= r < NP ->
    n_body (w r) = n_body (w' r) /\ store (w r) = store (w' r).

Lemma same_ghost_sets (r : Z) :
  0 <= r < NP -> ghost_set pow w r = ghost_set pow w' r.
Proof.
  intros Hr. rewrite !ghost_set_spec by assumption.
  apply flat_map_ext_in. intros s Hs. apply in_ints in Hs.
  now destruct (same_stores s Hs) as [_ ->].
Qed.

Lemma same_moved_stores (s : Z) :
  0 <= s < NP ->
  moved_store (n_body (w s)) (after_forces pow DT w s)
  = moved_store (n_body (w' s)) (after_forces pow DT w' s).
Proof.
  intros Hs. destruct (same_stores s Hs) as [Hn Hst].
  rewrite !after_forces_eq. rewrite <- Hn. unfold moved_store.
  apply slice_ext. intros i Hi.
  assert (fst (ghost_exchange pow w' s) = fst (ghost_exchange pow w s)) as Hf.
  { rewrite !ghost_count_received by assumption.
    now rewrite same_ghost_sets. }
  rewrite Hf. apply update_bodies_agree; [| |lia].
  - intros j Hj. apply (slice_pointwise _ _ (n_body (w s))); [|assumption].
    unfold store in Hst. now rewrite <- Hn in Hst.
  - intros j Hj.
    apply (slice_pointwise _ _ (fst (ghost_exchange pow w s))); [|assumption].
    pose proof (same_ghost_sets s Hs) as Hg. unfold ghost_set in Hg.
    now rewrite Hf in Hg.
Qed.

Lemma same_stores_after (r : Z) :
  0 <= r < NP ->
  n_body (timestep pow DT w r) = n_body (timestep pow DT w' r)
  /\ store (timestep pow DT w r) = store (timestep pow DT w' r).
Proof.
  intros Hr. unfold timestep.
  destruct (migrate_store pow DT w r Hr) as [-> ->].
  destruct (migrate_store pow DT w' r Hr) as [-> ->].
  assert (arrivals pow DT w r = arrivals pow DT w' r) as ->.
  { unfold arrivals. apply flat_map_ext_in. intros s Hs. apply in_ints in Hs.
    now rewrite same_moved_stores. }
  assert (stayers pow DT w r = stayers pow DT w' r) as ->.
  { unfold stayers. now rewrite same_moved_stores. }
  now split.
Qed.

End Scratch.

(** X15: a time step reads nothing but the stores.  Two worlds whose
    processes own the same bodies in the same order, whatever their send
    buffers, receive buffers, exile flags and the cells of [bodies] beyond
    [n_body] hold, have the same stores after the step: no stale or
    uninitialised cell is ever read. *)
Theorem timestep_reads_stores_only (pow : float -> float -> float) (DT : float)
    (w w' : world) (r : Z) :
  (forall s, 0 <= s < NP ->
     n_body (w s) = n_body (w' s) /\ store (w s) = store (w' s)) ->
  0 <= r < NP ->
  n_body (timestep pow DT w r) = n_body (timestep pow DT w' r)
  /\ store (timestep pow DT w r) = store (timestep pow DT w' r).
Proof. intros H Hr. now apply same_stores_after. Qed.

Lemma store_scribbled (p : proc) :
  n_body (scribbled p) = n_body p /\ store (scribbled p) = store p.
Proof.
  split; [reflexivity|]. unfold store, scribbled. cbn [n_body bodies].
  apply slice_ext. intros j Hj.
  replace ((0 <=? j) && (j <? n_body p)) with true; [reflexivity|].
  symmetry. apply andb_true_intro. split; [apply Z.leb_le|apply Z.ltb_lt]; lia.
Qed.

Lemma timestep_reads_stores_only_witness :
  store (timestep pow_ref 1 (fun s => scribbled (example_world s)) 6)
  = store (timestep pow_ref 1 example_world 6)
  /\ length (store (timestep pow_ref 1 example_world 6)) = 2%nat.
Proof.
  split; [|vm_compute; reflexivity].
  destruct (timestep_reads_stores_only pow_ref 1
              (fun s => scribbled (example_world s)) example_world 6)
    as [_ H].
  - intros s _. apply store_scribbled.
  - unfold NP. lia.
  - exact H.
Defined.
